(** * Kontist SDK: the authentication client ([src/lib/auth.ts])

    A shallow embedding of the [Auth] class: PKCE challenge derivation,
    token bookkeeping, the shared authenticated request primitive, the
    MFA challenge poll loop with its cancellation, and the device
    challenge verification.

    Conventions.
    - A JavaScript value that may be [undefined] (or [null]) is an
      [option]; truthiness of an optional string is [truthy].
    - 32-bit words and bytes are [Z] with the wrap-around written out.
    - Asynchronous code is cut at its suspension points: what runs up to an
      [await fetch(...)] and what runs when the response arrives are two
      pure functions, composed either directly (single request
      operations) or by the event loop [step] (the poll loop). *)

From Stdlib Require Import ZArith List String Ascii Lia Bool.
From stdpp Require Import base option list strings gmap.
Import ListNotations.
Local Open Scope Z_scope.
Local Open Scope string_scope.

(** ** SHA-256 (FIPS 180-4), what [sha256.array] of js-sha256 computes
    on the UTF-8 bytes of its argument *)
Module SHA256.

Definition mask32 : Z := 0xFFFFFFFF.
Definition add32 (x y : Z) : Z := (x + y) mod 2 ^ 32.
Definition rotr (n x : Z) : Z :=
  Z.lor (Z.shiftr x n) (Z.land (Z.shiftl x (32 - n)) mask32).
Definition shr (n x : Z) : Z := Z.shiftr x n.
Definition not32 (x : Z) : Z := Z.lxor x mask32.

Definition Ch (x y z : Z) : Z := Z.lxor (Z.land x y) (Z.land (not32 x) z).
Definition Maj (x y z : Z) : Z :=
  Z.lxor (Z.lxor (Z.land x y) (Z.land x z)) (Z.land y z).
Definition Sigma0 (x : Z) : Z := Z.lxor (Z.lxor (rotr 2 x) (rotr 13 x)) (rotr 22 x).
Definition Sigma1 (x : Z) : Z := Z.lxor (Z.lxor (rotr 6 x) (rotr 11 x)) (rotr 25 x).
Definition sigma0 (x : Z) : Z := Z.lxor (Z.lxor (rotr 7 x) (rotr 18 x)) (shr 3 x).
Definition sigma1 (x : Z) : Z := Z.lxor (Z.lxor (rotr 17 x) (rotr 19 x)) (shr 10 x).

(** The constants, as FIPS 180-4 defines them: the first 32 bits of the
    fractional parts of the cube roots (for [K]) and of the square roots
    (for [H0]) of the first primes. *)
Definition is_prime (n : nat) : bool :=
  forallb (fun d => negb (Nat.eqb (Nat.modulo n d) 0)) (seq 2 (n - 2)).

Definition primes (count : nat) : list Z :=
  firstn count (map Z.of_nat (filter is_prime (seq 2 310))).

(** The integer cube root of [n < 2 ^ 105], bit by bit. *)
Definition cube_root (n : Z) : Z :=
  fold_left (fun r b => let r' := r + 2 ^ Z.of_nat b in
                        if (r' * r' * r' <=? n)%Z then r' else r)
            (rev (seq 0 35)) 0.

Definition K : list Z :=
  Eval vm_compute in map (fun p => cube_root (p * 2 ^ 96) mod 2 ^ 32) (primes 64).

Definition H0 : list Z :=
  Eval vm_compute in map (fun p => Z.sqrt (p * 2 ^ 64) mod 2 ^ 32) (primes 8).

(** Big-endian bytes of the low [8 * n] bits of [x]. *)
Fixpoint be_bytes (n : nat) (x : Z) : list Z :=
  match n with
  | O => []
  | S n' => Z.land (Z.shiftr x (8 * Z.of_nat n')) 255 :: be_bytes n' x
  end.

Definition pad (msg : list Z) : list Z :=
  let len := Z.of_nat (List.length msg) in
  msg ++ [0x80] ++ List.repeat 0 (Z.to_nat ((55 - len) mod 64))
      ++ be_bytes 8 (8 * len).

Fixpoint be_words (bytes : list Z) : list Z :=
  match bytes with
  | a :: b :: c :: d :: rest =>
      (Z.shiftl a 24 + Z.shiftl b 16 + Z.shiftl c 8 + d) :: be_words rest
  | _ => []
  end.

Fixpoint blocks (fuel : nat) (ws : list Z) : list (list Z) :=
  match fuel, ws with
  | S fuel', _ :: _ => firstn 16 ws :: blocks fuel' (skipn 16 ws)
  | _, _ => []
  end.

(** The message schedule, kept most recent word first while it grows. *)
Fixpoint extend (n : nat) (rev_w : list Z) : list Z :=
  match n with
  | O => rev_w
  | S n' =>
      let w := add32 (add32 (sigma1 (nth 1 rev_w 0)) (nth 6 rev_w 0))
                     (add32 (sigma0 (nth 14 rev_w 0)) (nth 15 rev_w 0)) in
      extend n' (w :: rev_w)
  end.

Definition schedule (block : list Z) : list Z := rev (extend 48 (rev block)).

Record regs := Regs { ra : Z; rb : Z; rc : Z; rd : Z; re : Z; rf : Z; rg : Z; rh : Z }.

Definition round (s : regs) (kw : Z * Z) : regs :=
  let '(k, w) := kw in
  let t1 := add32 (add32 (add32 (rh s) (Sigma1 (re s))) (Ch (re s) (rf s) (rg s)))
                  (add32 k w) in
  let t2 := add32 (Sigma0 (ra s)) (Maj (ra s) (rb s) (rc s)) in
  Regs (add32 t1 t2) (ra s) (rb s) (rc s) (add32 (rd s) t1) (re s) (rf s) (rg s).

Definition regs_of (h : list Z) : regs :=
  Regs (nth 0 h 0) (nth 1 h 0) (nth 2 h 0) (nth 3 h 0)
       (nth 4 h 0) (nth 5 h 0) (nth 6 h 0) (nth 7 h 0).
Definition list_of (s : regs) : list Z :=
  [ra s; rb s; rc s; rd s; re s; rf s; rg s; rh s].

Definition compress (h : list Z) (block : list Z) : list Z :=
  let s := fold_left round (combine K (schedule block)) (regs_of h) in
  map (fun '(x, y) => add32 x y) (combine h (list_of s)).

(** The 32 digest bytes of a byte message. *)
Definition digest (msg : list Z) : list Z :=
  let ws := be_words (pad msg) in
  concat (map (be_bytes 4) (fold_left compress (blocks (List.length ws) ws) H0)).

Definition bytes_of_string (s : string) : list Z :=
  map (fun c => Z.of_nat (nat_of_ascii c)) (list_ascii_of_string s).

(** [sha256.array(message)] for an ASCII [message]. *)
Definition array (message : string) : list Z := digest (bytes_of_string message).

End SHA256.

(** ** String primitives of the platform used by [getAuthUri] *)

(** [String.fromCharCode.apply(null, codes)]: one UTF-16 code unit
    per element. *)
Definition fromCharCode (codes : list Z) : list Z :=
  map (fun c => c mod 65536) codes.

Definition b64_alphabet : string :=
  "ABCDEFGHIJKLMNOPQRSTUVWXYZabcdefghijklmnopqrstuvwxyz0123456789+/".

Definition b64_char (i : Z) : ascii :=
  match String.get (Z.to_nat i) b64_alphabet with
  | Some c => c
  | None => "A"%char
  end.

Fixpoint b64_encode (l : list Z) : string :=
  match l with
  | [] => ""
  | [a] =>
      String (b64_char (Z.shiftr a 2))
        (String (b64_char (Z.shiftl (Z.land a 3) 4)) "==")
  | [a; b] =>
      String (b64_char (Z.shiftr a 2))
        (String (b64_char (Z.lor (Z.shiftl (Z.land a 3) 4) (Z.shiftr b 4)))
           (String (b64_char (Z.shiftl (Z.land b 15) 2)) "="))
  | a :: b :: c :: rest =>
      String (b64_char (Z.shiftr a 2))
        (String (b64_char (Z.lor (Z.shiftl (Z.land a 3) 4) (Z.shiftr b 4)))
           (String (b64_char (Z.lor (Z.shiftl (Z.land b 15) 2) (Z.shiftr c 6)))
              (String (b64_char (Z.land c 63)) (b64_encode rest))))
  end.

(** [btoa] of the abab package: [null] when a code unit is above 255,
    else the padded base64 text. *)
Definition btoa (chars : list Z) : option string :=
  if forallb (fun c : Z => (c <=? 255)%Z) chars then Some (b64_encode chars) else None.

(** [s.split(sep)[0]] for a one character [sep]: the text before the first
    occurrence of [sep], all of [s] when there is none. *)
Fixpoint split_head (sep : ascii) (s : string) : string :=
  match s with
  | EmptyString => EmptyString
  | String c s' => if Ascii.eqb c sep then EmptyString else String c (split_head sep s')
  end.

(** [s.replace(pat, by)] with a one character string pattern: JavaScript
    replaces the first occurrence only. *)
Fixpoint replace (pat by_ : ascii) (s : string) : string :=
  match s with
  | EmptyString => EmptyString
  | String c s' =>
      if Ascii.eqb c pat then String by_ s' else String c (replace pat by_ s')
  end.

(** The reading of RFC 7636 appendix A, for comparison with the code:
    every occurrence is substituted and the padding is dropped. *)
Fixpoint replace_all (pat by_ : ascii) (s : string) : string :=
  match s with
  | EmptyString => EmptyString
  | String c s' =>
      String (if Ascii.eqb c pat then by_ else c) (replace_all pat by_ s')
  end.

Fixpoint remove_all (pat : ascii) (s : string) : string :=
  match s with
  | EmptyString => EmptyString
  | String c s' =>
      if Ascii.eqb c pat then remove_all pat s' else String c (remove_all pat s')
  end.

Definition base64url (bytes : list Z) : string :=
  replace_all "/" "_" (replace_all "+" "-" (remove_all "=" (b64_encode bytes))).

(** ** Values, errors and the OAuth2 engine *)

(** Truthiness of a [string | undefined]: defined and not empty. *)
Definition truthy (o : option string) : bool :=
  match o with
  | Some s => negb (String.eqb s "")
  | None => false
  end.

(** A value inside a template literal. *)
Definition js_str (o : option string) : string := default "undefined" o.

(** The errors of [./errors] that [auth.ts] raises, and the two the
    platform raises under it.  [KontistSDKError] carries what the code
    passes to it: with a [status] it is the specification's
    ApiRequestError, without one its ConfigurationError. *)
Inductive SDKError :=
| KontistSDKError (status : option Z) (message : string)
| UserUnauthorizedError
| ChallengeExpiredError
| ChallengeDeniedError
| MFAConfirmationCanceledError
| SilentAuthorizationError (message : string)
| TypeError
| SyntaxError.

Inductive Result (A : Type) :=
| Ok (a : A)
| Err (e : SDKError).
Arguments Ok {A} a.
Arguments Err {A} e.

(** [ClientOAuth2.Token], the fields the client reads. *)
Record Token := {
  accessToken : option string;
  refreshToken : option string;
  tokenType : option string;
  data : gmap string string
}.

(** A positional argument of [createToken]: a string, an object or
    nothing. *)
Inductive JsArg :=
| JUndef
| JStr (s : string)
| JObj (o : gmap string string).

Definition js_arg (o : option string) : JsArg :=
  match o with Some s => JStr s | None => JUndef end.

Inductive QueryValue :=
| QStr (s : string)
| QArr (l : list string).

(** The part of the client-oauth2 instance [auth.ts] calls:
    [code.getUri({ query })] and [createToken(access, refresh, type, data)]. *)
Record ClientOAuth2 := {
  code_getUri : gmap string QueryValue -> string;
  createToken : JsArg -> JsArg -> JsArg -> JsArg -> Token
}.

Record ClientOAuth2Options := {
  accessTokenUri : string;
  authorizationUri : string;
  o_clientId : string;
  o_clientSecret : option string;
  o_redirectUri : string;
  o_scopes : list string;
  o_state : option string
}.

(** An engine keeps what it is given when the token it builds by
    [createToken(access, refresh, {})] carries both strings. *)
Definition keeps_tokens (c : ClientOAuth2) : Prop :=
  forall a r,
    accessToken (createToken c (JStr a) (JStr r) (JObj ∅) JUndef) = Some a /\
    refreshToken (createToken c (JStr a) (JStr r) (JObj ∅) JUndef) = Some r.

(** [createToken] as the client-oauth2 package has it: the arguments are
    merged by [Object.assign({}, data, access, refresh, type)], a string
    standing for the one field it names, and the token reads its fields
    from the merged object. *)
Module Engine.

Definition lower_ascii (c : ascii) : ascii :=
  let n := nat_of_ascii c in
  if ((65 <=? n) && (n <=? 90))%nat then ascii_of_nat (n + 32) else c.

Fixpoint toLowerCase (s : string) : string :=
  match s with
  | EmptyString => EmptyString
  | String c s' => String (lower_ascii c) (toLowerCase s')
  end.

Definition field (name : string) (x : JsArg) : gmap string string :=
  match x with
  | JUndef => ∅
  | JStr s => {[ name := s ]}
  | JObj o => o
  end.

(** [Object.assign]: later sources win. *)
Definition assign (sources : list (gmap string string)) : gmap string string :=
  fold_left (fun acc o => o ∪ acc) sources ∅.

Definition new_Token (options : gmap string string) : Token :=
  {| accessToken := options !! "access_token";
     refreshToken := options !! "refresh_token";
     tokenType := toLowerCase <$> options !! "token_type";
     data := options |}.

(** The [data] argument is an object or absent in every call of
    [auth.ts]. *)
Definition object_of (x : JsArg) : gmap string string :=
  match x with
  | JObj o => o
  | _ => ∅
  end.

Definition create (access refresh type data : JsArg) : Token :=
  new_Token (assign [ object_of data;
                      field "access_token" access;
                      field "refresh_token" refresh;
                      field "token_type" type ]).

(** [code.getUri] in outline only: the authorization uri and the query
    in key order.  The parameters the package adds itself and its
    percent-encoding are left out; no statement reads this text. *)
Definition render_value (v : QueryValue) : string :=
  match v with
  | QStr s => s
  | QArr l => String.concat "," l
  end.

Definition uri (authorizationUri : string) (query : gmap string QueryValue) : string :=
  authorizationUri ++ "?" ++
  String.concat "&" (map (fun kv => fst kv ++ "=" ++ render_value (snd kv))
                         (map_to_list query)).

Definition client (options : ClientOAuth2Options) : ClientOAuth2 :=
  {| code_getUri := uri (authorizationUri options);
     createToken := create |}.

End Engine.

(** ** The [Auth] instance *)

Inductive HttpMethod := GET | POST.

Inductive ChallengeStatus := PENDING | VERIFIED | DENIED.

Definition TimeoutID := nat.

(** A reference to the [reject] function of a pending confirmation: the
    promise it belongs to. *)
Definition PromiseRef := nat.

Bind Scope nat_scope with TimeoutID.
Bind Scope nat_scope with PromiseRef.

Module ClientOpts.
Record t := {
  clientId : string;
  clientSecret : option string;
  oauthClient : option ClientOAuth2;
  redirectUri : string;
  scopes : list string;
  state : option string;
  verifier : option string
}.
End ClientOpts.

Record Auth := {
  oauth2Client : ClientOAuth2;
  _token : option Token;
  baseUrl : string;
  state : option string;
  verifier : option string;
  challengePollInterval : Z;
  challengePollTimeoutId : option TimeoutID;
  rejectMFAConfirmation : option PromiseRef
}.

Definition MFA_CHALLENGE_PATH : string := "/api/user/mfa/challenges".
Definition CREATE_DEVICE_PATH : string := "/api/user/devices".
Definition VERIFY_DEVICE_PATH (deviceId : string) : string :=
  "/api/user/devices/" ++ deviceId ++ "/verify".
Definition CREATE_DEVICE_CHALLENGE_PATH (deviceId : string) : string :=
  "/api/user/devices/" ++ deviceId ++ "/challenges".
Definition VERIFY_DEVICE_CHALLENGE_PATH (deviceId challengeId : string) : string :=
  "/api/user/devices/" ++ deviceId ++ "/challenges/" ++ challengeId ++ "/verify".

Definition CHALLENGE_POLL_INTERVAL : Z := 3000.
Definition HTTP_STATUS_NO_CONTENT : Z := 204.

Definition only_one_parameter : string :=
  "You can provide only one parameter from ['verifier', 'clientSecret'].".

(** [new Auth(baseUrl, opts)].  [new_ClientOAuth2] is the constructor of
    the client-oauth2 package. *)
Definition constructor (new_ClientOAuth2 : ClientOAuth2Options -> ClientOAuth2)
    (baseUrl : string) (opts : ClientOpts.t) : Result Auth :=
  if truthy (ClientOpts.verifier opts) && truthy (ClientOpts.clientSecret opts)
  then Err (KontistSDKError None only_one_parameter)
  else Ok {|
    oauth2Client :=
      match ClientOpts.oauthClient opts with
      | Some c => c
      | None =>
          new_ClientOAuth2 {|
            accessTokenUri := baseUrl ++ "/api/oauth/token";
            authorizationUri := baseUrl ++ "/api/oauth/authorize";
            o_clientId := ClientOpts.clientId opts;
            o_clientSecret := ClientOpts.clientSecret opts;
            o_redirectUri := ClientOpts.redirectUri opts;
            o_scopes := ClientOpts.scopes opts;
            o_state := ClientOpts.state opts |}
      end;
    _token := None;
    baseUrl := baseUrl;
    state := ClientOpts.state opts;
    verifier := ClientOpts.verifier opts;
    challengePollInterval := CHALLENGE_POLL_INTERVAL;
    challengePollTimeoutId := None;
    rejectMFAConfirmation := None |}.

(** *** [getAuthUri] *)

(** Lines 109-114: the challenge derived from the verifier. *)
Definition challenge_of (verifier : string) : string :=
  replace "/" "_"
    (replace "+" "-"
       (split_head "="
          (match btoa (fromCharCode (SHA256.array verifier)) with
           | Some s => s
           | None => ""
           end))).

Record GetAuthUriOpts := { query : option (gmap string QueryValue) }.

(** The query handed to [code.getUri]. *)
Definition getAuthUri_query (a : Auth) (opts : GetAuthUriOpts)
    : gmap string QueryValue :=
  let q := default ∅ (query opts) in
  match verifier a with
  | Some v =>
      if truthy (Some v)
      then <["code_challenge_method" := QStr "S256"]>
             (<["code_challenge" := QStr (challenge_of v)]> q)
      else q
  | None => q
  end.

Definition getAuthUri (a : Auth) (opts : GetAuthUriOpts) : string :=
  code_getUri (oauth2Client a) (getAuthUri_query a opts).

(** *** [setToken] *)

Definition setToken (a : Auth) (accessToken refreshToken tokenType : option string)
    : Token * Auth :=
  let data := JObj ∅ in
  let token :=
    if truthy tokenType && truthy refreshToken
    then createToken (oauth2Client a) (js_arg accessToken) (js_arg refreshToken)
                     (js_arg tokenType) data
    else if truthy refreshToken
    then createToken (oauth2Client a) (js_arg accessToken) (js_arg refreshToken)
                     data JUndef
    else createToken (oauth2Client a) (js_arg accessToken) data JUndef JUndef in
  (token,
   {| oauth2Client := oauth2Client a; _token := Some token; baseUrl := baseUrl a;
      state := state a; verifier := verifier a;
      challengePollInterval := challengePollInterval a;
      challengePollTimeoutId := challengePollTimeoutId a;
      rejectMFAConfirmation := rejectMFAConfirmation a |}).

(** *** [request] *)

(** The call of [fetch]: the url is [new URL(path, baseUrl)], kept as the
    pair it is built from; [body] is the text [JSON.stringify] gives, if
    any.  A request stands for the call made where the url resolves: for a
    base url that is not absolute [new URL] throws before the call. *)
Record HttpRequest := {
  url_path : string;
  url_base : string;
  method : HttpMethod;
  headers : list (string * string);
  body : option string
}.

(** The parsed body of a response, by the properties the client reads. *)
Module Json.
Record t := {
  id : option string;
  status : option ChallengeStatus;
  expiresAt : option Z;   (* milliseconds of [new Date(expiresAt)], if a date *)
  token : option string
}.
End Json.

Module Response.
Record t := {
  status : Z;
  statusText : string;
  json : option Json.t    (* [None]: the body does not parse *)
}.
Definition ok (r : t) : bool := (200 <=? status r)%Z && (status r <=? 299)%Z.
End Response.

Inductive FetchResult :=
| NetworkFailure
| Responded (r : Response.t).

(** Lines 251-265: up to the call of [fetch]. *)
Definition request_send (a : Auth) (path : string) (method : HttpMethod)
    (body : option string) : Result HttpRequest :=
  match _token a with
  | None => Err UserUnauthorizedError
  | Some token =>
      Ok {| url_path := path;
            url_base := baseUrl a;
            method := method;
            headers := [ ("Accept", "application/json");
                         ("Content-Type", "application/json");
                         ("Authorization", "Bearer " ++ js_str (accessToken token)) ];
            body := body |}
  end.

(** Lines 267-278: what becomes of the result of [fetch]. *)
Definition request_receive (r : FetchResult) : Result (option Json.t) :=
  match r with
  | NetworkFailure => Err TypeError
  | Responded response =>
      if negb (Response.ok response)
      then Err (KontistSDKError (Some (Response.status response))
                                (Response.statusText response))
      else if (Response.status response =? HTTP_STATUS_NO_CONTENT)%Z
      then Ok None
      else match Response.json response with
           | Some j => Ok (Some j)
           | None => Err SyntaxError
           end
  end.

(** The network, for an operation that sends one request. *)
Definition Network := HttpRequest -> FetchResult.

(** [request] run to its end: the requests it sent, and its result. *)
Definition request (net : Network) (a : Auth) (path : string)
    (method : HttpMethod) (body : option string)
    : list HttpRequest * Result (option Json.t) :=
  match request_send a path method body with
  | Err e => ([], Err e)
  | Ok req => ([req], request_receive (net req))
  end.

(** *** Devices *)

Definition createDevice (net : Network) (a : Auth) (params : string) :=
  request net a CREATE_DEVICE_PATH POST (Some params).

Definition verifyDevice (net : Network) (a : Auth) (deviceId params : string) :=
  request net a (VERIFY_DEVICE_PATH deviceId) POST (Some params).

Definition createDeviceChallenge (net : Network) (a : Auth) (deviceId : string) :=
  request net a (CREATE_DEVICE_CHALLENGE_PATH deviceId) POST None.

(** The requests sent, the result, and the instance afterwards. *)
Definition verifyDeviceChallenge (net : Network) (a : Auth)
    (deviceId challengeId params : string)
    : list HttpRequest * Result Token * Auth :=
  match request net a (VERIFY_DEVICE_CHALLENGE_PATH deviceId challengeId) POST
                (Some params) with
  | (sent, Err e) => (sent, Err e, a)
  | (sent, Ok None) => (sent, Err TypeError, a)
  | (sent, Ok (Some result)) =>
      let accessToken := Json.token result in
      let refreshToken := _token a ≫= refreshToken in
      let '(token, a') := setToken a accessToken refreshToken None in
      (sent, Ok token, a')
  end.

(** ** The MFA confirmation and the event loop *)

Inductive Settlement :=
| Resolved (t : Token)
| Rejected (e : SDKError).

(** What waits for the response of a request in flight. *)
Inductive Cont :=
| AwaitCreate (p : PromiseRef)                   (* line 331 *)
| AwaitChallenge (pending : Json.t) (p : PromiseRef)  (* line 292 *)
| AwaitToken (p : PromiseRef).                   (* line 311 *)

(** The closure [pollChallengeStatus(pendingChallenge, resolve, reject)]. *)
Record Poll := { pendingChallenge : Json.t; operation : PromiseRef }.

(** The instance and the platform around it.  A promise is the list of
    the calls of its [resolve] and [reject], oldest first: it is settled
    by the first and ignores the rest. *)
Record World := {
  auth : Auth;
  promises : gmap PromiseRef (list Settlement);
  timers : gmap TimeoutID Poll;     (* set, not yet fired nor cleared *)
  inflight : gmap nat Cont;         (* by position in [sent] *)
  sent : list HttpRequest;          (* every call of [fetch], oldest first *)
  next_timeout : TimeoutID;
  next_promise : PromiseRef
}.

Definition with_auth (a : Auth) (w : World) : World :=
  {| auth := a; promises := promises w; timers := timers w;
     inflight := inflight w; sent := sent w; next_timeout := next_timeout w;
     next_promise := next_promise w |}.

Definition with_promises (ps : gmap PromiseRef (list Settlement)) (w : World) : World :=
  {| auth := auth w; promises := ps; timers := timers w;
     inflight := inflight w; sent := sent w; next_timeout := next_timeout w;
     next_promise := next_promise w |}.

Definition with_timers (ts : gmap TimeoutID Poll) (w : World) : World :=
  {| auth := auth w; promises := promises w; timers := ts;
     inflight := inflight w; sent := sent w; next_timeout := next_timeout w;
     next_promise := next_promise w |}.

Definition with_inflight (fl : gmap nat Cont) (w : World) : World :=
  {| auth := auth w; promises := promises w; timers := timers w;
     inflight := fl; sent := sent w; next_timeout := next_timeout w;
     next_promise := next_promise w |}.

Definition set_reject (r : option PromiseRef) (a : Auth) : Auth :=
  {| oauth2Client := oauth2Client a; _token := _token a; baseUrl := baseUrl a;
     state := state a; verifier := verifier a;
     challengePollInterval := challengePollInterval a;
     challengePollTimeoutId := challengePollTimeoutId a;
     rejectMFAConfirmation := r |}.

Definition set_timeout_id (i : option TimeoutID) (a : Auth) : Auth :=
  {| oauth2Client := oauth2Client a; _token := _token a; baseUrl := baseUrl a;
     state := state a; verifier := verifier a;
     challengePollInterval := challengePollInterval a;
     challengePollTimeoutId := i;
     rejectMFAConfirmation := rejectMFAConfirmation a |}.

Definition attempts (w : World) (p : PromiseRef) : list Settlement :=
  default [] (promises w !! p).

(** The state of a promise: pending, or settled by the first call. *)
Definition settled (w : World) (p : PromiseRef) : option Settlement :=
  head (attempts w p).

(** A call of [resolve] or [reject] of promise [p]. *)
Definition settle (p : PromiseRef) (s : Settlement) (w : World) : World :=
  with_promises (<[p := (attempts w p ++ [s])%list]> (promises w)) w.

(** [fetch(req)], with [k] suspended on it. *)
Definition fetch (req : HttpRequest) (k : Cont) (w : World) : World :=
  {| auth := auth w; promises := promises w; timers := timers w;
     inflight := <[List.length (sent w) := k]> (inflight w);
     sent := (sent w ++ [req])%list; next_timeout := next_timeout w;
     next_promise := next_promise w |}.

(** [setTimeout(poll, challengePollInterval)] and the assignment of its
    id, line 321. *)
Definition setTimeout (poll : Poll) (w : World) : World :=
  {| auth := set_timeout_id (Some (next_timeout w)) (auth w);
     promises := promises w;
     timers := <[next_timeout w := poll]> (timers w);
     inflight := inflight w; sent := sent w;
     next_timeout := S (next_timeout w);
     next_promise := next_promise w |}.

Definition clearTimeout (i : option TimeoutID) (w : World) : World :=
  match i with
  | Some i => with_timers (delete i (timers w)) w
  | None => w
  end.

(** Lines 290-298, to the first suspension: a tick of the poll starts. *)
Definition pollChallengeStatus (pending : option Json.t) (p : PromiseRef)
    (w : World) : World :=
  match pending with
  | None => settle p (Rejected TypeError) w
  | Some c =>
      match request_send (auth w) (MFA_CHALLENGE_PATH ++ "/" ++ js_str (Json.id c))
                         GET None with
      | Err e => settle p (Rejected e) w
      | Ok req => fetch req (AwaitChallenge c p) w
      end
  end.

Definition hasExpired (challenge : Json.t) (now : Z) : bool :=
  match Json.expiresAt challenge with
  | Some t => (t <? now)%Z
  | None => false
  end.

Definition wasDenied (challenge : Json.t) : bool :=
  match Json.status challenge with Some DENIED => true | _ => false end.

Definition wasVerified (challenge : Json.t) : bool :=
  match Json.status challenge with Some VERIFIED => true | _ => false end.

(** Lines 296-325: the tick goes on with the result of its request. *)
Definition pollChallengeStatus_resume (pending : Json.t) (p : PromiseRef)
    (r : FetchResult) (now : Z) (w : World) : World :=
  match request_receive r with
  | Err e => settle p (Rejected e) w
  | Ok challenge =>
      let w := with_auth (set_reject None (auth w)) w in
      match challenge with
      | None => w   (* a property of [undefined]: the tick throws, uncaught *)
      | Some c =>
          if hasExpired c now then settle p (Rejected ChallengeExpiredError) w
          else if wasDenied c then settle p (Rejected ChallengeDeniedError) w
          else if wasVerified c then
            match request_send (auth w)
                    (MFA_CHALLENGE_PATH ++ "/" ++ js_str (Json.id c) ++ "/token")
                    POST None with
            | Err e => w   (* thrown out of the tick, uncaught *)
            | Ok req => fetch req (AwaitToken p) w
            end
          else
            setTimeout {| pendingChallenge := pending; operation := p |}
                       (with_auth (set_reject (Some p) (auth w)) w)
      end
  end.

(** Lines 311-317: the redemption answered. *)
Definition pollChallengeStatus_redeemed (p : PromiseRef) (r : FetchResult)
    (w : World) : World :=
  match request_receive r with
  | Err e => w         (* thrown out of the tick, uncaught *)
  | Ok None => w       (* destructuring [undefined] throws, uncaught *)
  | Ok (Some result) =>
      let '(token, a) := setToken (auth w) (Json.token result) None None in
      settle p (Resolved token) (with_auth a w)
  end.

(** [getMFAConfirmedToken()]: the promise it returns is a new one, [p];
    the promise made at line 333 settles it, so the two are one here. *)
Definition getMFAConfirmedToken (w : World) : World :=
  let p := next_promise w in
  let w :=
    {| auth := auth w; promises := promises w; timers := timers w;
       inflight := inflight w; sent := sent w; next_timeout := next_timeout w;
       next_promise := S p |} in
  match request_send (auth w) MFA_CHALLENGE_PATH POST None with
  | Err e => settle p (Rejected e) w
  | Ok req => fetch req (AwaitCreate p) w
  end.

Definition getMFAConfirmedToken_resume (p : PromiseRef) (r : FetchResult)
    (w : World) : World :=
  match request_receive r with
  | Err e => settle p (Rejected e) w
  | Ok challenge => pollChallengeStatus challenge p w
  end.

Definition cancelMFAConfirmation (w : World) : World :=
  let w := clearTimeout (challengePollTimeoutId (auth w)) w in
  match rejectMFAConfirmation (auth w) with
  | Some p => settle p (Rejected MFAConfirmationCanceledError) w
  | None => w
  end.

(** What can happen next: the caller calls in, a timer fires, the
    response of a request arrives (at time [now]). *)
Inductive Event :=
| CallGetMFAConfirmedToken
| CallCancel
| TimerFires (i : TimeoutID)
| Responds (n : nat) (r : FetchResult) (now : Z).

Definition step (w : World) (e : Event) : World :=
  match e with
  | CallGetMFAConfirmedToken => getMFAConfirmedToken w
  | CallCancel => cancelMFAConfirmation w
  | TimerFires i =>
      match timers w !! i with
      | Some poll =>
          pollChallengeStatus (Some (pendingChallenge poll)) (operation poll)
                              (with_timers (delete i (timers w)) w)
      | None => w
      end
  | Responds n r now =>
      match inflight w !! n with
      | Some k =>
          let w := with_inflight (delete n (inflight w)) w in
          match k with
          | AwaitCreate p => getMFAConfirmedToken_resume p r w
          | AwaitChallenge pending p => pollChallengeStatus_resume pending p r now w
          | AwaitToken p => pollChallengeStatus_redeemed p r w
          end
      | None => w
      end
  end.

Definition run (w : World) (es : list Event) : World := fold_left step es w.

(** A fresh platform around an instance. *)
Definition boot (a : Auth) : World :=
  {| auth := a; promises := ∅; timers := ∅; inflight := ∅; sent := [];
     next_timeout := O; next_promise := O |}.

(** ** Instances and notions used in the statements *)

Definition api : string := "https://api.kontist.com".

Definition opts_with (verifier clientSecret : option string) : ClientOpts.t :=
  {| ClientOpts.clientId := "client";
     ClientOpts.clientSecret := clientSecret;
     ClientOpts.oauthClient := None;
     ClientOpts.redirectUri := "https://app.example/callback";
     ClientOpts.scopes := ["transactions"];
     ClientOpts.state := Some "4711";
     ClientOpts.verifier := verifier |}.

(** The instance [new Auth(api, opts)] where the constructor returns. *)
Definition instance (opts : ClientOpts.t) (fallback : Auth) : Auth :=
  match constructor Engine.client api opts with
  | Ok a => a
  | Err _ => fallback
  end.

Definition plain_auth : Auth :=
  {| oauth2Client :=
       Engine.client {| accessTokenUri := api ++ "/api/oauth/token";
                        authorizationUri := api ++ "/api/oauth/authorize";
                        o_clientId := "client"; o_clientSecret := None;
                        o_redirectUri := "https://app.example/callback";
                        o_scopes := ["transactions"]; o_state := Some "4711" |};
     _token := None; baseUrl := api; state := Some "4711"; verifier := None;
     challengePollInterval := CHALLENGE_POLL_INTERVAL;
     challengePollTimeoutId := None; rejectMFAConfirmation := None |}.

Definition pkce_auth (verifier : string) : Auth :=
  instance (opts_with (Some verifier) None) plain_auth.

(** An instance holding the token [setToken(access, refresh)] stores. *)
Definition signed_in (access refresh : string) : Auth :=
  snd (setToken plain_auth (Some access) (Some refresh) None).

Fixpoint occurrences (c : ascii) (s : string) : nat :=
  match s with
  | EmptyString => O
  | String c' s' => (if Ascii.eqb c' c then 1 else 0) + occurrences c s'
  end.

Definition respond (status : Z) (text : string) (j : option Json.t) : Network :=
  fun _ => Responded {| Response.status := status; Response.statusText := text;
                        Response.json := j |}.

Definition json_token (t : string) : Json.t :=
  {| Json.id := None; Json.status := None; Json.expiresAt := None;
     Json.token := Some t |}.

(** [w'] has the calls of [w] and possibly more after them. *)
Definition extends (w w' : World) : Prop :=
  forall p, exists l, attempts w' p = (attempts w p ++ l)%list.

(** Nothing scheduled and nothing in flight. *)
Definition idle (w : World) : Prop := timers w = ∅ /\ inflight w = ∅.

Definition no_call (e : Event) : Prop := e <> CallGetMFAConfirmedToken.

Definition challenge_json (id : string) (status : ChallengeStatus) (expiresAt : Z)
    : Json.t :=
  {| Json.id := Some id; Json.status := Some status;
     Json.expiresAt := Some expiresAt; Json.token := None |}.

Definition answer (status : Z) (j : Json.t) : FetchResult :=
  Responded {| Response.status := status; Response.statusText := "OK";
               Response.json := Some j |}.

Definition log (w : World) : list (HttpMethod * string) :=
  map (fun q => (method q, url_path q)) (sent w).

(** A call of [resolve] or [reject] made by a tick on the state of the
    challenge: resolved, expired or denied. *)
Definition decided (s : Settlement) : bool :=
  match s with
  | Resolved _ => true
  | Rejected ChallengeExpiredError => true
  | Rejected ChallengeDeniedError => true
  | Rejected _ => false
  end.

Definition undecided (w : World) : Prop :=
  forall q, existsb decided (attempts w q) = false.

(** At most one timer or one request, never both. *)
Definition shape (w : World) : Prop :=
  idle w
  \/ (timers w = ∅ /\ exists n k, inflight w = {[ n := k ]})
  \/ (inflight w = ∅ /\ exists i poll, timers w = {[ i := poll ]}).

Definition waits_token (w : World) : Prop :=
  forall n p, inflight w !! n = Some (AwaitToken p) ->
              rejectMFAConfirmation (auth w) = None.

Definition looping (w : World) : Prop := undecided w /\ shape w /\ waits_token w.

Definition finished (w : World) : Prop :=
  idle w /\ rejectMFAConfirmation (auth w) = None.

Definition single_loop (w : World) : Prop := finished w \/ looping w.

(** ** Token exchange *)

(** What the network-facing methods of the client-oauth2 instance settle
    with: a token, or an error with its message. *)
Inductive Exchange :=
| Granted (t : Token)
| Refused (message : string).

(** [code.getToken(callbackUri, options)] with the [code_verifier] of
    [options.body] if there is a body, and
    [owner.getToken(username, password, { scopes })] with the scopes if
    given: the two methods of [oauth2Client] that reach the provider. *)
Record TokenEndpoint := {
  code_getToken : string -> option string -> Exchange;
  owner_getToken : string -> string -> option (list string) -> Exchange
}.

Definition with_token (t : Token) (a : Auth) : Auth :=
  {| oauth2Client := oauth2Client a; _token := Some t; baseUrl := baseUrl a;
     state := state a; verifier := verifier a;
     challengePollInterval := challengePollInterval a;
     challengePollTimeoutId := challengePollTimeoutId a;
     rejectMFAConfirmation := rejectMFAConfirmation a |}.

(** Lines 132-142: the options of the exchange. *)
Definition fetchToken_options (a : Auth) : option string :=
  if truthy (verifier a) then verifier a else None.

(** What the call settles with, and the instance afterwards. *)
Definition fetchToken (ep : TokenEndpoint) (a : Auth) (callbackUri : string)
    : Exchange * Auth :=
  match code_getToken ep callbackUri (fetchToken_options a) with
  | Granted token => (Granted token, with_token token a)
  | Refused m => (Refused m, a)
  end.

(** [options.scopes] is an array or absent, and an array is truthy, also
    when it is empty. *)
Definition fetchTokenFromCredentials (ep : TokenEndpoint) (a : Auth)
    (username password : string) (scopes : option (list string))
    : Exchange * Auth :=
  let getTokenOpts := match scopes with Some l => Some l | None => None end in
  match owner_getToken ep username password getTokenOpts with
  | Granted token => (Granted token, with_token token a)
  | Refused m => (Refused m, a)
  end.

(** The getter [token]. *)
Definition token (a : Auth) : option Token := _token a.

(** ** Notions used in the further statements *)

(** The length of a base64 text of [n] bytes without its padding. *)
Definition stripped_length (n : nat) : nat := ((4 * n + 2) / 3)%nat.

(** The stored timer id and reject reference are those of the timer that
    is set. *)
Definition linked (w : World) : Prop :=
  forall i poll, timers w !! i = Some poll ->
    challengePollTimeoutId (auth w) = Some i
    /\ rejectMFAConfirmation (auth w) = Some (operation poll).

(** A world of one confirmation, from a fresh platform. *)
Definition confirming (a : Auth) (es : list Event) : World :=
  run (boot a) (CallGetMFAConfirmedToken :: es).


(** An endpoint that grants on a code and refuses credentials. *)
Definition granting : TokenEndpoint :=
  {| code_getToken := fun _ _ => Granted (Engine.create (JStr "t") (JObj ∅) JUndef JUndef);
     owner_getToken := fun _ _ _ => Refused "invalid_grant" |}.

(** * Properties *)

(** ** The digest: the test vector of FIPS 180-4 *)

Example sha256_abc :
  b64_encode (SHA256.array "abc") = "ungWv48Bz+pBQUDeXa4iI7ADYaOWF3qctBD/YfIAFa0=".
Proof. vm_compute. reflexivity. Qed.

(** ** Properties of the PKCE challenge *)

Lemma replace_once pat by_ s :
  (occurrences pat s <= 1)%nat -> replace pat by_ s = replace_all pat by_ s.
Proof.
  induction s as [|c s IH]; simpl; [reflexivity|].
  destruct (Ascii.eqb c pat) eqn:E; simpl; intros H.
  - f_equal. clear IH E. induction s as [|c' s IH]; simpl in *; [reflexivity|].
    destruct (Ascii.eqb c' pat); simpl in *; [lia|]. f_equal. apply IH. lia.
  - f_equal. apply IH. lia.
Qed.

(** With a verifier configured the method is always S256. *)
Lemma getAuthUri_method a opts v :
  verifier a = Some v -> v <> "" ->
  getAuthUri_query a opts !! "code_challenge_method" = Some (QStr "S256").
Proof.
  intros H N. unfold getAuthUri_query, truthy. rewrite H.
  apply String.eqb_neq in N. rewrite N. cbn [negb]. apply lookup_insert_eq.
Qed.

Lemma getAuthUri_challenge a opts v :
  verifier a = Some v -> v <> "" ->
  getAuthUri_query a opts !! "code_challenge" = Some (QStr (challenge_of v)).
Proof.
  intros H N. unfold getAuthUri_query, truthy. rewrite H.
  apply String.eqb_neq in N. rewrite N. cbn [negb].
  rewrite lookup_insert_ne by discriminate. apply lookup_insert_eq.
Qed.

Lemma occurrences_replace c pat by_ s :
  Ascii.eqb pat c = false -> Ascii.eqb by_ c = false ->
  occurrences c (replace pat by_ s) = occurrences c s.
Proof.
  intros Hp Hb. induction s as [|x s IH]; simpl; [reflexivity|].
  destruct (Ascii.eqb x pat) eqn:E; simpl.
  - apply Ascii.eqb_eq in E. subst x. rewrite Hp, Hb. reflexivity.
  - rewrite IH. reflexivity.
Qed.

Lemma b64_char_not_pad i : Ascii.eqb (b64_char i) "=" = false.
Proof.
  unfold b64_char. generalize (Z.to_nat i) as n. intros n.
  do 64 (destruct n as [|n]; [reflexivity|]). reflexivity.
Qed.

(** The padding of a base64 text is at its end: cutting at the first
    [=] removes it all. *)
Lemma b64_encode_padding l :
  split_head "=" (b64_encode l) = remove_all "=" (b64_encode l)
  /\ (forall a, split_head "=" (b64_encode (a :: l))
                = remove_all "=" (b64_encode (a :: l)))
  /\ (forall a b, split_head "=" (b64_encode (a :: b :: l))
                  = remove_all "=" (b64_encode (a :: b :: l))).
Proof.
  induction l as [|c l (IH0 & IH1 & IH2)].
  - repeat split; intros; simpl; rewrite ?b64_char_not_pad; reflexivity.
  - split; [apply IH1|]. split; [intros a; apply IH2|].
    intros a b. simpl b64_encode. simpl split_head. simpl remove_all.
    rewrite !b64_char_not_pad. rewrite IH0. reflexivity.
Qed.

Lemma be_bytes_range n x : Forall (fun b => 0 <= b <= 255) (SHA256.be_bytes n x).
Proof.
  induction n as [|n IH]; simpl; constructor; [|exact IH].
  assert (E : Z.land (Z.shiftr x (8 * Z.of_nat n)) 255
              = Z.shiftr x (8 * Z.of_nat n) mod 256).
  { change 255 with (Z.ones 8). rewrite Z.land_ones by lia. reflexivity. }
  rewrite E. pose proof (Z.mod_pos_bound (Z.shiftr x (8 * Z.of_nat n)) 256). lia.
Qed.

Lemma digest_range msg : Forall (fun b => 0 <= b <= 255) (SHA256.digest msg).
Proof.
  unfold SHA256.digest. generalize (fold_left SHA256.compress
    (SHA256.blocks (List.length (SHA256.be_words (SHA256.pad msg)))
                   (SHA256.be_words (SHA256.pad msg))) SHA256.H0) as h.
  intros h. induction h as [|x h IH]; [constructor|].
  change (Forall (fun b => 0 <= b <= 255)
            (SHA256.be_bytes 4 x ++ concat (map (SHA256.be_bytes 4) h))).
  apply Forall_app. split; [apply be_bytes_range|exact IH].
Qed.

(** [btoa] is never [null] on a digest. *)
Lemma btoa_digest verifier :
  btoa (fromCharCode (SHA256.array verifier))
  = Some (b64_encode (SHA256.array verifier)).
Proof.
  unfold SHA256.array. generalize (digest_range (SHA256.bytes_of_string verifier)).
  generalize (SHA256.digest (SHA256.bytes_of_string verifier)) as d. intros d H.
  assert (E : fromCharCode d = d).
  { unfold fromCharCode. induction H as [|b d Hb H IH]; simpl; [reflexivity|].
    rewrite IH, Z.mod_small by lia. reflexivity. }
  rewrite E. unfold btoa.
  replace (forallb (fun c : Z => (c <=? 255)%Z) d) with true; [reflexivity|].
  symmetry. apply forallb_forall. intros b Hin.
  rewrite List.Forall_forall in H. apply Z.leb_le. apply (H b Hin).
Qed.

(** Where the text of the digest has at most one plus and at most one
    slash, the challenge of the code is its base64url text. *)
Lemma challenge_of_base64url verifier :
  let text := remove_all "=" (b64_encode (SHA256.array verifier)) in
  (occurrences "+" text <= 1)%nat ->
  (occurrences "/" text <= 1)%nat ->
  challenge_of verifier = base64url (SHA256.array verifier).
Proof.
  intros text Hp Hs. unfold challenge_of, base64url. rewrite btoa_digest.
  destruct (b64_encode_padding (SHA256.array verifier)) as [-> _]. fold text.
  rewrite (replace_once "/" "_" (replace "+" "-" text))
    by (rewrite occurrences_replace by reflexivity; exact Hs).
  rewrite (replace_once "+" "-" text Hp). reflexivity.
Qed.

(** The fixture of the specification: for the verifier abc the digest has
    one plus and one slash, and the code agrees with base64url. *)
Example challenge_of_abc :
  challenge_of "abc" = "ungWv48Bz-pBQUDeXa4iI7ADYaOWF3qctBD_YfIAFa0"
  /\ challenge_of "abc" = base64url (SHA256.array "abc").
Proof. split; vm_compute; reflexivity. Qed.

(** C1 (fails on the code): the embedded code_challenge is not the
    base64url text of the digest when the digest's base64 text has two
    slashes.  For the verifier [verifier] the query handed to the engine
    holds a challenge with the second slash left in place, while
    base64url replaces both; the method is S256. *)
Theorem C1_challenge_replaces_first_occurrence_only :
  let a := pkce_auth "verifier" in
  let q := getAuthUri_query a {| query := None |} in
  b64_encode (SHA256.array "verifier") = "iMnq5o6zALKXGivsnlom/0F5/WYda32GHkxlV7mq7hQ="
  /\ q !! "code_challenge" = Some (QStr "iMnq5o6zALKXGivsnlom_0F5/WYda32GHkxlV7mq7hQ")
  /\ base64url (SHA256.array "verifier") = "iMnq5o6zALKXGivsnlom_0F5_WYda32GHkxlV7mq7hQ"
  /\ q !! "code_challenge" <> Some (QStr (base64url (SHA256.array "verifier")))
  /\ q !! "code_challenge_method" = Some (QStr "S256").
Proof.
  cbv zeta.
  assert (E : challenge_of "verifier" = "iMnq5o6zALKXGivsnlom_0F5/WYda32GHkxlV7mq7hQ")
    by (vm_compute; reflexivity).
  assert (B : base64url (SHA256.array "verifier")
              = "iMnq5o6zALKXGivsnlom_0F5_WYda32GHkxlV7mq7hQ")
    by (vm_compute; reflexivity).
  assert (N : "verifier" <> "") by discriminate.
  pose proof (getAuthUri_challenge (pkce_auth "verifier") {| query := None |}
                "verifier" eq_refl N) as C.
  pose proof (getAuthUri_method (pkce_auth "verifier") {| query := None |}
                "verifier" eq_refl N) as M.
  rewrite E in C.
  split; [vm_compute; reflexivity|].
  split; [exact C|]. split; [exact B|]. split; [|exact M].
  rewrite B. intros X. rewrite X in C. discriminate C.
Qed.

(** ** The constructor *)

(** C7: with a non-empty verifier and a non-empty client secret the
    constructor throws the configuration error ([KontistSDKError] without
    a status); with one of the two absent (or empty) it returns an
    instance. *)
Theorem C7_verifier_and_secret_exclusive :
  forall new_client baseUrl opts,
    (forall v s,
        ClientOpts.verifier opts = Some v -> ClientOpts.clientSecret opts = Some s ->
        v <> "" -> s <> "" ->
        constructor new_client baseUrl opts
        = Err (KontistSDKError None only_one_parameter))
    /\ (truthy (ClientOpts.verifier opts) = false
        \/ truthy (ClientOpts.clientSecret opts) = false ->
        exists a, constructor new_client baseUrl opts = Ok a
                  /\ verifier a = ClientOpts.verifier opts /\ _token a = None).
Proof.
  intros new_client base opts. split.
  - intros v s Hv Hs Nv Ns. unfold constructor. rewrite Hv, Hs. simpl.
    apply String.eqb_neq in Nv, Ns. rewrite Nv, Ns. reflexivity.
  - intros H. unfold constructor.
    assert (E : truthy (ClientOpts.verifier opts)
                && truthy (ClientOpts.clientSecret opts) = false).
    { destruct H as [H|H]; rewrite H; simpl; [reflexivity|apply andb_false_r]. }
    rewrite E. eexists. split; [reflexivity|]. split; reflexivity.
Qed.

Lemma C7_verifier_and_secret_exclusive_witness :
  constructor Engine.client api (opts_with (Some "v") (Some "s"))
  = Err (KontistSDKError None only_one_parameter)
  /\ exists a, constructor Engine.client api (opts_with (Some "v") None) = Ok a
               /\ verifier a = Some "v" /\ _token a = None.
Proof.
  destruct (C7_verifier_and_secret_exclusive Engine.client api
              (opts_with (Some "v") (Some "s"))) as [H _].
  destruct (C7_verifier_and_secret_exclusive Engine.client api
              (opts_with (Some "v") None)) as [_ H'].
  split.
  - apply (H "v" "s"); [reflexivity|reflexivity|discriminate|discriminate].
  - apply H'. right. reflexivity.
Defined.

(** ** [setToken] *)

Lemma setToken_stores a acc r t :
  _token (snd (setToken a acc r t)) = Some (fst (setToken a acc r t)).
Proof. reflexivity. Qed.

Lemma setToken_access_only a acc :
  fst (setToken a acc None None)
  = createToken (oauth2Client a) (js_arg acc) (JObj ∅) JUndef JUndef.
Proof. reflexivity. Qed.

Lemma setToken_with_refresh a acc r :
  r <> "" ->
  fst (setToken a acc (Some r) None)
  = createToken (oauth2Client a) (js_arg acc) (JStr r) (JObj ∅) JUndef.
Proof.
  intros H. unfold setToken. simpl. apply String.eqb_neq in H. rewrite H.
  reflexivity.
Qed.

(** C10: without a refresh token (absent, or empty) the token type is
    dropped.  The token is built by [createToken(accessToken, {})], from
    the access token alone, and stored, and call and result are those of
    [setToken(accessToken)]; the token type reaches the engine only
    together with a refresh token, in [createToken(accessToken,
    refreshToken, tokenType, {})]. *)
Theorem C10_token_type_needs_refresh_token :
  forall a acc r t,
    (truthy r = false ->
       fst (setToken a acc r t)
       = createToken (oauth2Client a) (js_arg acc) (JObj ∅) JUndef JUndef
       /\ _token (snd (setToken a acc r t)) = Some (fst (setToken a acc r t))
       /\ setToken a acc r t = setToken a acc None None)
    /\ (truthy r = true ->
        fst (setToken a acc r t)
        = (if truthy t
           then createToken (oauth2Client a) (js_arg acc) (js_arg r) (js_arg t)
                            (JObj ∅)
           else createToken (oauth2Client a) (js_arg acc) (js_arg r) (JObj ∅)
                            JUndef)
        /\ _token (snd (setToken a acc r t)) = Some (fst (setToken a acc r t))).
Proof.
  intros a acc r t. split; intros H.
  - assert (E : setToken a acc r t = setToken a acc None None).
    { unfold setToken. rewrite H, andb_false_r. reflexivity. }
    rewrite E. split; [apply setToken_access_only|]. split; [|reflexivity].
    apply setToken_stores.
  - split; [|apply setToken_stores].
    unfold setToken. rewrite H, andb_true_r. destruct (truthy t); reflexivity.
Qed.

Lemma C10_token_type_needs_refresh_token_witness :
  (fst (setToken plain_auth (Some "access") None (Some "Bearer"))
   = createToken (oauth2Client plain_auth) (JStr "access") (JObj ∅) JUndef JUndef
   /\ _token (snd (setToken plain_auth (Some "access") None (Some "Bearer")))
      = Some (fst (setToken plain_auth (Some "access") None (Some "Bearer")))
   /\ setToken plain_auth (Some "access") None (Some "Bearer")
      = setToken plain_auth (Some "access") None None)
  /\ fst (setToken plain_auth (Some "access") (Some "refresh") (Some "Bearer"))
     = createToken (oauth2Client plain_auth) (JStr "access") (JStr "refresh")
         (JStr "Bearer") (JObj ∅).
Proof.
  destruct (C10_token_type_needs_refresh_token plain_auth (Some "access") None
              (Some "Bearer")) as [H _].
  destruct (C10_token_type_needs_refresh_token plain_auth (Some "access")
              (Some "refresh") (Some "Bearer")) as [_ H'].
  split; [apply H; reflexivity|]. apply (H' eq_refl).
Defined.

(** With a refresh token the token type does reach the engine. *)
Example setToken_type_used :
  tokenType (fst (setToken plain_auth (Some "access") (Some "refresh") (Some "Bearer")))
  = Some "bearer"
  /\ tokenType (fst (setToken plain_auth (Some "access") (Some "refresh") None)) = None.
Proof. split; vm_compute; reflexivity. Qed.

(** ** [request] *)

(** C5: without a current token the request operation throws
    [UserUnauthorizedError] and [fetch] is not called, whatever the path,
    the method and the body. *)
Theorem C5_request_needs_token :
  forall net a path method body,
    _token a = None ->
    request net a path method body = ([], Err UserUnauthorizedError).
Proof.
  intros net a path method body H. unfold request, request_send. rewrite H.
  reflexivity.
Qed.

Lemma C5_request_needs_token_witness :
  request (fun _ => NetworkFailure) plain_auth CREATE_DEVICE_PATH POST (Some "{}")
  = ([], Err UserUnauthorizedError).
Proof.
  apply (C5_request_needs_token (fun _ => NetworkFailure) plain_auth
           CREATE_DEVICE_PATH POST (Some "{}")).
  reflexivity.
Defined.

Lemma request_sends net a token path method body :
  _token a = Some token ->
  exists req,
    request_send a path method body = Ok req
    /\ request net a path method body = ([req], request_receive (net req)).
Proof.
  intros H. unfold request, request_send. rewrite H. eexists. split; reflexivity.
Qed.

(** C6: what the request operation makes of a response.  Outside 200-299
    it throws [KontistSDKError] with the status and the status text; on 204
    it returns nothing; on another status of 200-299 it returns the parsed
    body. *)
Theorem C6_request_response_handling :
  forall net a path method body req response,
    request_send a path method body = Ok req ->
    net req = Responded response ->
    let result := snd (request net a path method body) in
    let status := Response.status response in
    (status < 200 \/ 299 < status ->
       result = Err (KontistSDKError (Some status) (Response.statusText response)))
    /\ (status = 204 -> result = Ok None)
    /\ (200 <= status <= 299 -> status <> 204 ->
        forall j, Response.json response = Some j -> result = Ok (Some j)).
Proof.
  intros net a path method body req response Hs Hn. cbv zeta.
  unfold request. rewrite Hs. simpl. rewrite Hn.
  unfold request_receive, Response.ok, HTTP_STATUS_NO_CONTENT.
  repeat split.
  - intros H.
    replace ((200 <=? Response.status response)%Z
             && (Response.status response <=? 299)%Z) with false; [reflexivity|].
    symmetry. apply andb_false_iff. rewrite Z.leb_gt, Z.leb_gt. lia.
  - intros H. rewrite H. reflexivity.
  - intros H N j Hj.
    replace ((200 <=? Response.status response)%Z
             && (Response.status response <=? 299)%Z) with true.
    + simpl. apply Z.eqb_neq in N. rewrite N, Hj. reflexivity.
    + symmetry. apply andb_true_iff. rewrite Z.leb_le, Z.leb_le. lia.
Qed.

Lemma C6_request_response_handling_witness :
  snd (request (respond 404 "Not Found" None) (signed_in "a" "r")
         (VERIFY_DEVICE_PATH "d1") POST (Some "{}"))
  = Err (KontistSDKError (Some 404) "Not Found")
  /\ snd (request (respond 204 "No Content" None) (signed_in "a" "r")
            (VERIFY_DEVICE_PATH "d1") POST (Some "{}"))
     = Ok None
  /\ snd (request (respond 200 "OK" (Some (json_token "t"))) (signed_in "a" "r")
            (VERIFY_DEVICE_PATH "d1") POST (Some "{}"))
     = Ok (Some (json_token "t")).
Proof.
  destruct (request_sends (respond 404 "Not Found" None) (signed_in "a" "r")
              (fst (setToken plain_auth (Some "a") (Some "r") None))
              (VERIFY_DEVICE_PATH "d1") POST (Some "{}") eq_refl) as [req [Hs _]].
  split; [|split].
  - apply (C6_request_response_handling (respond 404 "Not Found" None) _ _ _ _
             req _ Hs eq_refl). simpl. lia.
  - apply (C6_request_response_handling (respond 204 "No Content" None) _ _ _ _
             req _ Hs eq_refl). reflexivity.
  - apply (C6_request_response_handling (respond 200 "OK" (Some (json_token "t")))
             _ _ _ _ req _ Hs eq_refl); simpl; [lia|lia|reflexivity].
Defined.

(** ** Device challenges *)

Lemma Engine_keeps_tokens options : keeps_tokens (Engine.client options).
Proof.
  intros a r. simpl. unfold Engine.create, Engine.new_Token, Engine.assign. simpl.
  split.
  - rewrite !(left_id_L ∅ (∪)), (right_id_L ∅ (∪)).
    rewrite lookup_union_r by (apply lookup_singleton_ne; discriminate).
    apply lookup_singleton_eq.
  - rewrite !(left_id_L ∅ (∪)), (right_id_L ∅ (∪)).
    rewrite lookup_union_l' by (rewrite lookup_singleton_eq; eauto).
    apply lookup_singleton_eq.
Qed.

(** C3: a [verifyDeviceChallenge] call that succeeds while a token with a
    refresh token is stored builds the new token from the access token of
    the response and the stored refresh token, stores it and returns it;
    with an engine that keeps what it is given, the new token carries
    both. *)
Theorem C3_verifyDeviceChallenge_reuses_refresh_token :
  forall net a old r deviceId challengeId params sent result acc,
    _token a = Some old -> refreshToken old = Some r -> r <> "" ->
    request net a (VERIFY_DEVICE_CHALLENGE_PATH deviceId challengeId) POST
            (Some params) = (sent, Ok (Some result)) ->
    Json.token result = Some acc ->
    exists token a',
      verifyDeviceChallenge net a deviceId challengeId params = (sent, Ok token, a')
      /\ token = createToken (oauth2Client a) (JStr acc) (JStr r) (JObj ∅) JUndef
      /\ _token a' = Some token
      /\ (keeps_tokens (oauth2Client a) ->
          accessToken token = Some acc /\ refreshToken token = Some r).
Proof.
  intros net a old r deviceId challengeId params sent result acc Ht Hr Nr Hq Ha.
  unfold verifyDeviceChallenge. rewrite Hq, Ha, Ht.
  change (Some old ≫= refreshToken) with (refreshToken old). rewrite Hr.
  destruct (setToken a (Some acc) (Some r) None) as [token a'] eqn:E.
  exists token, a'.
  pose proof (setToken_with_refresh a (Some acc) r Nr) as F.
  pose proof (setToken_stores a (Some acc) (Some r) None) as S.
  rewrite E in F, S. simpl in F, S.
  split; [reflexivity|]. split; [exact F|]. split; [exact S|].
  intros K. rewrite F. apply K.
Qed.

Lemma C3_verifyDeviceChallenge_reuses_refresh_token_witness :
  exists token a',
    verifyDeviceChallenge (respond 200 "OK" (Some (json_token "elevated")))
      (signed_in "access" "refresh") "d1" "c1" "{}"
    = ([ {| url_path := "/api/user/devices/d1/challenges/c1/verify";
            url_base := api; method := POST;
            headers := [ ("Accept", "application/json");
                         ("Content-Type", "application/json");
                         ("Authorization", "Bearer access") ];
            body := Some "{}" |} ],
       Ok token, a')
    /\ token = createToken (oauth2Client (signed_in "access" "refresh"))
                 (JStr "elevated") (JStr "refresh") (JObj ∅) JUndef
    /\ _token a' = Some token
    /\ accessToken token = Some "elevated"
    /\ refreshToken token = Some "refresh".
Proof.
  destruct (C3_verifyDeviceChallenge_reuses_refresh_token
              (respond 200 "OK" (Some (json_token "elevated")))
              (signed_in "access" "refresh")
              (fst (setToken plain_auth (Some "access") (Some "refresh") None))
              "refresh" "d1" "c1" "{}" _ (json_token "elevated") "elevated"
              eq_refl eq_refl ltac:(discriminate) eq_refl eq_refl)
    as (token & a' & E & F & S & K).
  exists token, a'. split; [exact E|]. split; [exact F|]. split; [exact S|].
  apply K. apply Engine_keeps_tokens.
Defined.

(** ** The poll loop: promises are settled once *)

Lemma extends_refl w : extends w w.
Proof. intros p. exists []. symmetry. apply app_nil_r. Qed.

Lemma extends_trans w1 w2 w3 : extends w1 w2 -> extends w2 w3 -> extends w1 w3.
Proof.
  intros H12 H23 p. destruct (H12 p) as [l E], (H23 p) as [l' E'].
  exists (l ++ l')%list. rewrite E', E. symmetry. apply app_assoc.
Qed.

Lemma attempts_settle p s w q :
  attempts (settle p s w) q
  = if decide (p = q) then (attempts w p ++ [s])%list else attempts w q.
Proof.
  unfold attempts at 1. unfold settle. simpl.
  destruct (decide (p = q)) as [->|N].
  - rewrite lookup_insert_eq. reflexivity.
  - rewrite lookup_insert_ne by exact N. reflexivity.
Qed.

Lemma extends_same w w' : promises w' = promises w -> extends w w'.
Proof. intros E p. exists []. unfold attempts. rewrite E. symmetry. apply app_nil_r. Qed.

Lemma extends_settle w w' p s :
  promises w' = promises w -> extends w (settle p s w').
Proof.
  intros E. apply extends_trans with w'; [apply extends_same, E|].
  intros q. rewrite attempts_settle. destruct (decide (p = q)) as [->|N].
  - eexists. reflexivity.
  - exists []. symmetry. apply app_nil_r.
Qed.

Create HintDb calls.
#[local] Hint Resolve extends_refl extends_same extends_settle : calls.

Lemma extends_pollChallengeStatus pending p w w0 :
  promises w = promises w0 -> extends w0 (pollChallengeStatus pending p w).
Proof.
  intros E. unfold pollChallengeStatus. destruct pending as [c|]; [|auto with calls].
  destruct (request_send _ _ _ _); auto with calls.
Qed.

Lemma extends_pollChallengeStatus_resume pending p r now w w0 :
  promises w = promises w0 -> extends w0 (pollChallengeStatus_resume pending p r now w).
Proof.
  intros E. unfold pollChallengeStatus_resume.
  destruct (request_receive r) as [[c|]|e]; [|auto with calls..].
  destruct (hasExpired c now); [auto with calls|].
  destruct (wasDenied c); [auto with calls|].
  destruct (wasVerified c); [|auto with calls].
  destruct (request_send _ _ _ _); auto with calls.
Qed.

Lemma extends_pollChallengeStatus_redeemed p r w w0 :
  promises w = promises w0 -> extends w0 (pollChallengeStatus_redeemed p r w).
Proof.
  intros E. unfold pollChallengeStatus_redeemed.
  destruct (request_receive r) as [[c|]|e]; [|auto with calls..].
  destruct (setToken _ _ _ _). auto with calls.
Qed.

Lemma extends_step w e : extends w (step w e).
Proof.
  destruct e as [| |i|n r now]; unfold step.
  - unfold getMFAConfirmedToken. destruct (request_send _ _ _ _); auto with calls.
  - unfold cancelMFAConfirmation.
    assert (E : promises (clearTimeout (challengePollTimeoutId (auth w)) w)
                = promises w) by (destruct (challengePollTimeoutId (auth w)); reflexivity).
    destruct (rejectMFAConfirmation _); auto with calls.
  - destruct (timers w !! i); [|auto with calls].
    apply extends_pollChallengeStatus. reflexivity.
  - destruct (inflight w !! n) as [[p|pending p|p]|]; [| | |auto with calls].
    + unfold getMFAConfirmedToken_resume. destruct (request_receive r); [|auto with calls].
      apply extends_pollChallengeStatus. reflexivity.
    + apply extends_pollChallengeStatus_resume. reflexivity.
    + apply extends_pollChallengeStatus_redeemed. reflexivity.
Qed.

Lemma extends_run es : forall w, extends w (run w es).
Proof.
  induction es as [|e es IH]; intros w; simpl.
  - apply extends_refl.
  - eapply extends_trans; [apply extends_step|apply IH].
Qed.

Lemma settled_extends w w' p s :
  extends w w' -> settled w p = Some s -> settled w' p = Some s.
Proof.
  intros H. unfold settled. destruct (H p) as [l E]. rewrite E.
  destruct (attempts w p); simpl; [discriminate|tauto].
Qed.

(** ** The poll loop: equations of [step] *)

Lemma request_send_ok a token path m b :
  _token a = Some token ->
  exists req, request_send a path m b = Ok req
              /\ method req = m /\ url_path req = path.
Proof.
  intros H. unfold request_send. rewrite H. eexists. repeat split.
Qed.

Lemma step_created w n p r now pending req :
  inflight w !! n = Some (AwaitCreate p) ->
  request_receive r = Ok (Some pending) ->
  request_send (auth w) (MFA_CHALLENGE_PATH ++ "/" ++ js_str (Json.id pending))
               GET None = Ok req ->
  step w (Responds n r now)
  = fetch req (AwaitChallenge pending p) (with_inflight (delete n (inflight w)) w).
Proof.
  intros Hk Hr Hs. unfold step. rewrite Hk. unfold getMFAConfirmedToken_resume. rewrite Hr.
  unfold pollChallengeStatus. simpl. rewrite Hs. reflexivity.
Qed.

Lemma step_expired w n p pending r now c :
  inflight w !! n = Some (AwaitChallenge pending p) ->
  request_receive r = Ok (Some c) ->
  hasExpired c now = true ->
  step w (Responds n r now)
  = settle p (Rejected ChallengeExpiredError)
      (with_auth (set_reject None (auth w))
         (with_inflight (delete n (inflight w)) w)).
Proof.
  intros Hk Hr He. unfold step. rewrite Hk. unfold pollChallengeStatus_resume. rewrite Hr, He.
  reflexivity.
Qed.

Lemma idle_step w e :
  idle w -> no_call e ->
  idle (step w e) /\ sent (step w e) = sent w /\ auth (step w e) = auth w.
Proof.
  intros [Ht Hf] N. destruct e as [| |i|n r now]; unfold step.
  - exfalso. apply N. reflexivity.
  - unfold cancelMFAConfirmation, idle.
    destruct (challengePollTimeoutId (auth w)) as [i|]; simpl;
      destruct (rejectMFAConfirmation (auth w)); simpl;
      rewrite ?Ht, ?delete_empty; auto.
  - rewrite Ht, lookup_empty. unfold idle. auto.
  - rewrite Hf, lookup_empty. unfold idle. auto.
Qed.

Lemma idle_run es :
  forall w, idle w -> Forall no_call es ->
            idle (run w es) /\ sent (run w es) = sent w /\ auth (run w es) = auth w.
Proof.
  induction es as [|e es IH]; intros w I F; simpl; [auto|].
  inversion F as [|? ? N F']; subst.
  destruct (idle_step w e I N) as (I' & S' & A').
  destruct (IH (step w e) I' F') as (I'' & S'' & A'').
  rewrite S'', A''. auto.
Qed.

(** ** Expiry *)

(** C4: when the challenge fetched by the first poll has an [expiresAt]
    before the current time, whatever its status, the confirmation is
    rejected with [ChallengeExpiredError], and the only requests ever sent,
    however the caller and the platform go on, are the creation and that
    poll: no redemption. *)
Theorem C4_expired_on_first_poll :
  forall a token r0 now0 pending r1 now c t es,
    _token a = Some token ->
    request_receive r0 = Ok (Some pending) ->
    request_receive r1 = Ok (Some c) ->
    Json.expiresAt c = Some t -> t < now ->
    Forall no_call es ->
    let w := run (boot a)
               [CallGetMFAConfirmedToken; Responds 0 r0 now0; Responds 1 r1 now] in
    settled w 0%nat = Some (Rejected ChallengeExpiredError)
    /\ settled (run w es) 0%nat = Some (Rejected ChallengeExpiredError)
    /\ map (fun q => (method q, url_path q)) (sent (run w es))
       = [ (POST, MFA_CHALLENGE_PATH);
           (GET, MFA_CHALLENGE_PATH ++ "/" ++ js_str (Json.id pending)) ].
Proof.
  intros a token r0 now0 pending r1 now c t es Ht Hr0 Hr1 Hx Hlt Hes. cbv zeta.
  change (run (boot a) [CallGetMFAConfirmedToken; Responds 0 r0 now0; Responds 1 r1 now])
    with (step (step (step (boot a) CallGetMFAConfirmedToken) (Responds 0 r0 now0))
               (Responds 1 r1 now)).
  destruct (request_send_ok a token MFA_CHALLENGE_PATH POST None Ht)
    as (q0 & E0 & M0 & P0).
  destruct (request_send_ok a token
              (MFA_CHALLENGE_PATH ++ "/" ++ js_str (Json.id pending)) GET None Ht)
    as (q1 & E1 & M1 & P1).
  assert (S1 : step (boot a) CallGetMFAConfirmedToken
               = fetch q0 (AwaitCreate 0)
                   {| auth := a; promises := ∅; timers := ∅; inflight := ∅;
                      sent := []; next_timeout := 0%nat; next_promise := 1%nat |}).
  { unfold step, getMFAConfirmedToken. simpl. rewrite E0. reflexivity. }
  rewrite S1. clear S1.
  rewrite (step_created _ 0 0 r0 now0 pending q1);
    [|apply lookup_insert_eq|exact Hr0|exact E1].
  rewrite (step_expired _ 1 0 pending r1 now c);
    [|apply lookup_insert_eq|exact Hr1|].
  2:{ unfold hasExpired. rewrite Hx. apply Z.ltb_lt. exact Hlt. }
  match goal with |- settled ?w _ = _ /\ _ => set (w3 := w) end.
  assert (Hs : settled w3 0%nat = Some (Rejected ChallengeExpiredError)).
  { unfold settled, w3. rewrite attempts_settle.
    destruct (decide (0%nat = 0%nat)); [|congruence]. reflexivity. }
  assert (Hi : idle w3).
  { split; [reflexivity|]. unfold w3. simpl.
    rewrite !delete_insert_eq, !delete_empty. reflexivity. }
  destruct (idle_run es w3 Hi Hes) as (_ & Hsent & _).
  split; [exact Hs|]. split.
  - apply (settled_extends w3); [apply extends_run|exact Hs].
  - rewrite Hsent. unfold w3. simpl. rewrite M0, P0, M1, P1. reflexivity.
Qed.

Lemma C4_expired_on_first_poll_witness :
  let w := run (boot (signed_in "access" "refresh"))
             [ CallGetMFAConfirmedToken;
               Responds 0 (answer 201 (challenge_json "c1" PENDING 1000)) 10;
               Responds 1 (answer 200 (challenge_json "c1" VERIFIED 1000)) 2000 ] in
  let es := [CallCancel; TimerFires 0; Responds 1 NetworkFailure 3000] in
  settled w 0%nat = Some (Rejected ChallengeExpiredError)
  /\ settled (run w es) 0%nat = Some (Rejected ChallengeExpiredError)
  /\ map (fun q => (method q, url_path q)) (sent (run w es))
     = [ (POST, "/api/user/mfa/challenges"); (GET, "/api/user/mfa/challenges/c1") ].
Proof.
  apply (C4_expired_on_first_poll (signed_in "access" "refresh")
           (fst (setToken plain_auth (Some "access") (Some "refresh") None))
           (answer 201 (challenge_json "c1" PENDING 1000)) 10
           (challenge_json "c1" PENDING 1000)
           (answer 200 (challenge_json "c1" VERIFIED 1000)) 2000
           (challenge_json "c1" VERIFIED 1000) 1000
           [CallCancel; TimerFires 0; Responds 1 NetworkFailure 3000]).
  - reflexivity.
  - reflexivity.
  - reflexivity.
  - reflexivity.
  - lia.
  - repeat constructor; discriminate.
Defined.

(** ** Redemption *)

(** The token stored after a redemption is built from the access token
    of the response alone, whatever was stored before. *)
Lemma pollChallengeStatus_redeemed_stores w p r result :
  request_receive r = Ok (Some result) ->
  let token := createToken (oauth2Client (auth w)) (js_arg (Json.token result))
                 (JObj ∅) JUndef JUndef in
  _token (auth (pollChallengeStatus_redeemed p r w)) = Some token
  /\ attempts (pollChallengeStatus_redeemed p r w) p = (attempts w p ++ [Resolved token])%list.
Proof.
  intros Hr. cbv zeta. unfold pollChallengeStatus_redeemed. rewrite Hr.
  destruct (setToken (auth w) (Json.token result) None None) as [token a'] eqn:E.
  pose proof (setToken_access_only (auth w) (Json.token result)) as F.
  pose proof (setToken_stores (auth w) (Json.token result) None None) as S.
  rewrite E in F, S. simpl in F, S. rewrite <- F. split.
  - exact S.
  - rewrite attempts_settle. destruct (decide (p = p)); [reflexivity|congruence].
Qed.

(** C2 (fails on the code): after a poll that sees VERIFIED the client
    redeems the challenge and resolves with the stored token, but that
    token is built by [setToken(confirmedToken)]: the refresh token
    stored before is not passed on and the new token has none. *)
Theorem C2_verified_poll_drops_refresh_token :
  let a := signed_in "access" "refresh" in
  let w := run (boot a)
             [ CallGetMFAConfirmedToken;
               Responds 0 (answer 201 (challenge_json "c1" PENDING 1000)) 10;
               Responds 1 (answer 200 (challenge_json "c1" VERIFIED 1000)) 20;
               Responds 2 (answer 200 (json_token "confirmed")) 30 ] in
  (_token a ≫= refreshToken) = Some "refresh"
  /\ log w = [ (POST, "/api/user/mfa/challenges");
               (GET, "/api/user/mfa/challenges/c1");
               (POST, "/api/user/mfa/challenges/c1/token") ]
  /\ (_token (auth w) ≫= accessToken) = Some "confirmed"
  /\ (_token (auth w) ≫= refreshToken) = None
  /\ settled w 0%nat = Resolved <$> _token (auth w).
Proof. cbv zeta. repeat apply conj; vm_compute; reflexivity. Qed.

(** ** Cancellation *)

(** Between two ticks, with the next one scheduled, [cancel] ends the
    loop: the timer is cleared, the confirmation is rejected and nothing is
    sent any more. *)
Lemma cancel_between_ticks w i poll p :
  challengePollTimeoutId (auth w) = Some i ->
  rejectMFAConfirmation (auth w) = Some p ->
  timers w = {[ i := poll ]} ->
  inflight w = ∅ ->
  let w' := step w CallCancel in
  idle w'
  /\ attempts w' p = (attempts w p ++ [Rejected MFAConfirmationCanceledError])%list
  /\ forall es, Forall no_call es -> sent (run w' es) = sent w.
Proof.
  intros Hi Hp Ht Hf. cbv zeta. unfold step, cancelMFAConfirmation.
  rewrite Hi. simpl. rewrite Hp.
  assert (I : idle (settle p (Rejected MFAConfirmationCanceledError)
                      (with_timers (delete i (timers w)) w))).
  { split; simpl; [rewrite Ht; apply delete_singleton_eq|exact Hf]. }
  split; [exact I|]. split.
  - rewrite attempts_settle. destruct (decide (p = p)); [reflexivity|congruence].
  - intros es Hes. destruct (idle_run es _ I Hes) as (_ & S & _). rewrite S.
    reflexivity.
Qed.

(** With no reference held and no timer of the stored id left, [cancel]
    changes nothing. *)
Lemma cancel_without_poll w :
  rejectMFAConfirmation (auth w) = None ->
  (forall i, challengePollTimeoutId (auth w) = Some i -> timers w !! i = None) ->
  step w CallCancel = w.
Proof.
  intros Hp Ht. unfold step, cancelMFAConfirmation.
  destruct (challengePollTimeoutId (auth w)) as [i|] eqn:E; simpl; rewrite Hp.
  - unfold with_timers. rewrite (delete_id _ _ (Ht i eq_refl)). destruct w; reflexivity.
  - reflexivity.
Qed.

(** C8 (fails on the code): a cancel that arrives while the request of a
    tick is in flight does not end the loop.  During the second tick it
    rejects the confirmation with [MFAConfirmationCanceledError], yet when
    the response arrives the tick schedules its successor, which fires and
    polls again; during the first tick it does nothing at all. *)
Theorem C8_cancel_during_request_keeps_polling :
  let a := signed_in "access" "refresh" in
  let created := answer 201 (challenge_json "c1" PENDING 1000) in
  let pending := answer 200 (challenge_json "c1" PENDING 1000) in
  let w1 := run (boot a) [CallGetMFAConfirmedToken; Responds 0 created 10] in
  let w2 := run w1 [Responds 1 pending 20; TimerFires 0] in
  let canceled := step w2 CallCancel in
  let after := run canceled [Responds 2 pending 30; TimerFires 1] in
  (settled w2 0%nat = None
   /\ rejectMFAConfirmation (auth w2) = Some 0%nat
   /\ log w2 = [ (POST, "/api/user/mfa/challenges");
                 (GET, "/api/user/mfa/challenges/c1");
                 (GET, "/api/user/mfa/challenges/c1") ])
  /\ (settled canceled 0%nat = Some (Rejected MFAConfirmationCanceledError)
      /\ log canceled = log w2)
  /\ (is_Some (timers (step canceled (Responds 2 pending 30)) !! 1%nat)
      /\ log after = [ (POST, "/api/user/mfa/challenges");
                       (GET, "/api/user/mfa/challenges/c1");
                       (GET, "/api/user/mfa/challenges/c1");
                       (GET, "/api/user/mfa/challenges/c1") ])
  /\ (settled w1 0%nat = None /\ step w1 CallCancel = w1).
Proof.
  cbv zeta. split; [|split; [|split]].
  - repeat apply conj; vm_compute; reflexivity.
  - split; vm_compute; reflexivity.
  - split; [|vm_compute; reflexivity]. vm_compute. eexists. reflexivity.
  - split; [vm_compute; reflexivity|]. apply cancel_without_poll.
    + vm_compute. reflexivity.
    + intros i H. vm_compute in H. discriminate.
Qed.

(** ** The poll loop of one confirmation *)

Lemma undecided_same w w' : promises w' = promises w -> undecided w -> undecided w'.
Proof. intros E H q. unfold attempts. rewrite E. apply H. Qed.

Lemma undecided_settle w w' p s :
  decided s = false -> promises w' = promises w -> undecided w ->
  undecided (settle p s w').
Proof.
  intros D E H q. rewrite attempts_settle.
  destruct (decide (p = q)); [|apply (undecided_same w w' E H)].
  rewrite existsb_app. simpl. rewrite D.
  rewrite (undecided_same w w' E H p). reflexivity.
Qed.

Lemma looping_idle w : undecided w -> idle w -> looping w.
Proof.
  intros U I. split; [exact U|]. split; [left; exact I|].
  intros n p H. destruct I as [_ I]. rewrite I, lookup_empty in H. discriminate.
Qed.

Lemma request_send_err a path m b e :
  request_send a path m b = Err e -> e = UserUnauthorizedError.
Proof. unfold request_send. destruct (_token a); congruence. Qed.

Lemma request_receive_err r e :
  request_receive r = Err e -> decided (Rejected e) = false.
Proof.
  unfold request_receive. destruct r as [|response]; [intros [= <-]; reflexivity|].
  destruct (negb _); [intros [= <-]; reflexivity|].
  destruct (_ =? _)%Z; [discriminate|].
  destruct (Response.json response); [discriminate|intros [= <-]; reflexivity].
Qed.

Lemma fetch_looping req k w :
  undecided w -> idle w ->
  (forall p, k = AwaitToken p -> rejectMFAConfirmation (auth w) = None) ->
  looping (fetch req k w).
Proof.
  intros U [Ht Hf] K. split; [apply (undecided_same w); [reflexivity|exact U]|].
  split.
  - right. left. split; [exact Ht|]. exists (List.length (sent w)), k. simpl.
    rewrite Hf. apply insert_empty.
  - intros n p H. simpl in H. rewrite Hf in H.
    apply lookup_insert_Some in H as [[_ H]|[_ H]].
    + apply (K p H).
    + rewrite lookup_empty in H. discriminate.
Qed.

Lemma pollChallengeStatus_looping pending p w :
  undecided w -> idle w -> looping (pollChallengeStatus pending p w).
Proof.
  intros U I. unfold pollChallengeStatus. destruct pending as [c|].
  - destruct (request_send _ _ _ _) as [req|e] eqn:E.
    + apply fetch_looping; [exact U|exact I|discriminate].
    + apply request_send_err in E. subst e.
      apply looping_idle; [apply (undecided_settle w); auto|exact I].
  - apply looping_idle; [apply (undecided_settle w); auto|exact I].
Qed.

Lemma pollChallengeStatus_resume_single_loop pending p r now w :
  undecided w -> idle w -> single_loop (pollChallengeStatus_resume pending p r now w).
Proof.
  intros U I. unfold pollChallengeStatus_resume.
  destruct (request_receive r) as [[c|]|e] eqn:E.
  - destruct (hasExpired c now); [left; exact (conj I eq_refl)|].
    destruct (wasDenied c); [left; exact (conj I eq_refl)|].
    destruct (wasVerified c).
    + destruct (request_send _ _ _ _) as [req|e'].
      * right. apply fetch_looping; [exact U|exact I|reflexivity].
      * left. exact (conj I eq_refl).
    + right. destruct I as [Ht Hf].
      split; [apply (undecided_same w); [reflexivity|exact U]|]. split.
      * right. right. split; [exact Hf|]. eexists _, _. simpl. rewrite Ht.
        apply insert_empty.
      * intros n q H. simpl in H. rewrite Hf, lookup_empty in H. discriminate.
  - left. exact (conj I eq_refl).
  - right. apply looping_idle; [|exact I].
    apply (undecided_settle w); [apply (request_receive_err r), E|reflexivity|exact U].
Qed.

Lemma pollChallengeStatus_redeemed_finished p r w :
  idle w -> rejectMFAConfirmation (auth w) = None -> finished (pollChallengeStatus_redeemed p r w).
Proof.
  intros I R. unfold pollChallengeStatus_redeemed.
  destruct (request_receive r) as [[c|]|e]; exact (conj I R).
Qed.

Lemma finished_step w e : finished w -> no_call e -> step w e = w.
Proof.
  intros [[Ht Hf] R] N. destruct e as [| |i|n r now].
  - exfalso. apply N. reflexivity.
  - apply cancel_without_poll; [exact R|]. intros i _. rewrite Ht. apply lookup_empty.
  - unfold step. rewrite Ht, lookup_empty. reflexivity.
  - unfold step. rewrite Hf, lookup_empty. reflexivity.
Qed.

Lemma looping_cancel w : looping w -> looping (step w CallCancel).
Proof.
  intros (U & S & K). unfold step, cancelMFAConfirmation.
  set (wc := clearTimeout (challengePollTimeoutId (auth w)) w).
  assert (Ea : auth wc = auth w)
    by (unfold wc; destruct (challengePollTimeoutId (auth w)); reflexivity).
  assert (Ep : promises wc = promises w)
    by (unfold wc; destruct (challengePollTimeoutId (auth w)); reflexivity).
  assert (Ef : inflight wc = inflight w)
    by (unfold wc; destruct (challengePollTimeoutId (auth w)); reflexivity).
  assert (Sc : shape wc).
  { unfold wc. destruct (challengePollTimeoutId (auth w)) as [i|]; [|exact S].
    destruct S as [[Ht Hf]|[[Ht Hf]|[Hf (j & poll & Ht)]]].
    - left. split; simpl; [rewrite Ht; apply delete_empty|exact Hf].
    - right. left. split; simpl; [rewrite Ht; apply delete_empty|exact Hf].
    - destruct (decide (i = j)) as [->|N].
      + left. split; simpl; [rewrite Ht; apply delete_singleton_eq|exact Hf].
      + right. right. split; [exact Hf|]. exists j, poll. simpl. rewrite Ht.
        apply delete_singleton_ne. exact N. }
  assert (Kc : waits_token wc).
  { intros n p H. rewrite Ea. rewrite Ef in H. apply (K n p H). }
  rewrite Ea. destruct (rejectMFAConfirmation (auth w)) as [p|].
  - split; [apply (undecided_settle w); auto|]. split; [exact Sc|exact Kc].
  - split; [apply (undecided_same w); auto|]. split; [exact Sc|exact Kc].
Qed.

Lemma single_loop_step w e : single_loop w -> no_call e -> single_loop (step w e).
Proof.
  intros [F|L] N; [rewrite (finished_step w e F N); left; exact F|].
  destruct e as [| |i|n r now].
  - exfalso. apply N. reflexivity.
  - right. apply looping_cancel, L.
  - destruct L as (U & S & K). unfold step.
    destruct (timers w !! i) as [poll|] eqn:E; [|right; repeat split; assumption].
    right. apply pollChallengeStatus_looping; [apply (undecided_same w); auto|].
    destruct S as [[Ht Hf]|[[Ht Hf]|[Hf (j & poll' & Ht)]]];
      try (rewrite Ht, lookup_empty in E; discriminate).
    rewrite Ht in E. apply lookup_singleton_Some in E as [-> _].
    split; simpl; [rewrite Ht; apply delete_singleton_eq|exact Hf].
  - destruct L as (U & S & K). unfold step.
    destruct (inflight w !! n) as [k|] eqn:E; [|right; repeat split; assumption].
    set (wd := with_inflight (delete n (inflight w)) w).
    assert (I : idle wd).
    { destruct S as [[Ht Hf]|[[Ht (m & k' & Hf)]|[Hf _]]];
        try (rewrite Hf, lookup_empty in E; discriminate).
      rewrite Hf in E. apply lookup_singleton_Some in E as [-> _].
      split; simpl; [exact Ht|rewrite Hf; apply delete_singleton_eq]. }
    assert (Ud : undecided wd) by (apply (undecided_same w); auto).
    destruct k as [p|pending p|p].
    + right. unfold getMFAConfirmedToken_resume. destruct (request_receive r) as [c|e] eqn:Er.
      * apply pollChallengeStatus_looping; assumption.
      * apply looping_idle; [|exact I].
        apply (undecided_settle w); [apply (request_receive_err r), Er|reflexivity|exact U].
    + apply pollChallengeStatus_resume_single_loop; assumption.
    + left. apply pollChallengeStatus_redeemed_finished; [exact I|]. apply (K n p E).
Qed.

Lemma single_loop_run es :
  forall w, single_loop w -> Forall no_call es -> single_loop (run w es).
Proof.
  induction es as [|e es IH]; intros w S F; simpl; [exact S|].
  inversion F as [|? ? N F']; subst.
  apply IH; [apply single_loop_step; assumption|exact F'].
Qed.

Lemma single_loop_started a : single_loop (step (boot a) CallGetMFAConfirmedToken).
Proof.
  right. unfold step, getMFAConfirmedToken.
  assert (U : undecided (boot a)).
  { intros q. unfold attempts. simpl. rewrite lookup_empty. reflexivity. }
  destruct (request_send _ _ _ _) as [req|e] eqn:E.
  - apply fetch_looping; [apply (undecided_same (boot a)); auto| |discriminate].
    split; reflexivity.
  - apply request_send_err in E. subst e. apply looping_idle.
    + apply (undecided_settle (boot a)); auto.
    + split; reflexivity.
Qed.

(** C9, as it is stated, fails on a tick that rejects on a failed
    request: line 297 rejects before line 300 clears the reference.  After
    the second poll is answered with a 500 the tick has rejected the
    confirmation, the reference to its [reject] is still held, and a
    cancel calls [reject] a second time. *)
Lemma C9_failed_poll_keeps_reference :
  let w := run (boot (signed_in "access" "refresh"))
             [ CallGetMFAConfirmedToken;
               Responds 0 (answer 201 (challenge_json "c1" PENDING 1000)) 10;
               Responds 1 (answer 200 (challenge_json "c1" PENDING 1000)) 20;
               TimerFires 0;
               Responds 2 (Responded {| Response.status := 500;
                                        Response.statusText := "Internal Server Error";
                                        Response.json := None |}) 30 ] in
  attempts w 0%nat = [Rejected (KontistSDKError (Some 500) "Internal Server Error")]
  /\ rejectMFAConfirmation (auth w) = Some 0%nat
  /\ rejectMFAConfirmation (auth w) <> None
  /\ attempts (step w CallCancel) 0%nat
     = [ Rejected (KontistSDKError (Some 500) "Internal Server Error");
         Rejected MFAConfirmationCanceledError ].
Proof.
  cbv zeta. split; [vm_compute; reflexivity|]. split; [vm_compute; reflexivity|].
  split; [vm_compute; discriminate|]. vm_compute. reflexivity.
Qed.

(** C9, amended: a pending confirmation is settled at most once.  In
    every interleaving of calls, timers and responses the state of a
    settled promise stays what the first call of [resolve] or [reject]
    made it.  Once a tick of the one confirmation under way has resolved
    it or rejected it as expired or denied, the reference to [reject] is
    null, so a cancel at any later point changes nothing at all.  Once a
    tick has rejected it on a failed request, the confirmation is settled,
    and it stays as that tick or an earlier call settled it whatever
    follows, a cancel first of all. *)
Theorem C9_confirmation_settled_once :
  (forall w es p s, settled w p = Some s -> settled (run w es) p = Some s)
  /\ (forall a es p,
        Forall no_call es ->
        let w := run (boot a) (CallGetMFAConfirmedToken :: es) in
        existsb decided (attempts w p) = true ->
        rejectMFAConfirmation (auth w) = None /\ step w CallCancel = w)
  /\ (forall w n pending p r now e,
        inflight w !! n = Some (AwaitChallenge pending p) ->
        request_receive r = Err e ->
        let w' := step w (Responds n r now) in
        attempts w' p = (attempts w p ++ [Rejected e])%list
        /\ is_Some (settled w' p)
        /\ forall es, settled (run w' (CallCancel :: es)) p = settled w' p).
Proof.
  split; [|split].
  - intros w es p s H. apply (settled_extends w); [apply extends_run|exact H].
  - intros a es p F w D.
    assert (S : single_loop w).
    { unfold w. simpl. apply single_loop_run; [apply single_loop_started|exact F]. }
    destruct S as [Fi|(U & _)].
    + split; [apply Fi|]. apply finished_step; [exact Fi|discriminate].
    + rewrite (U p) in D. discriminate.
  - intros w n pending p r now e E Hr w'.
    assert (Ew : w' = settle p (Rejected e) (with_inflight (delete n (inflight w)) w)).
    { unfold w', step. rewrite E. unfold pollChallengeStatus_resume. rewrite Hr.
      reflexivity. }
    assert (A : attempts w' p = (attempts w p ++ [Rejected e])%list).
    { rewrite Ew, attempts_settle.
      destruct (decide (p = p)); [reflexivity|congruence]. }
    assert (S : is_Some (settled w' p)).
    { unfold settled. rewrite A. destruct (attempts w p); simpl; eauto. }
    split; [exact A|]. split; [exact S|].
    intros es. destruct S as [s Hs]. rewrite Hs.
    apply (settled_extends w'); [apply extends_run|exact Hs].
Qed.

Lemma C9_confirmation_settled_once_witness :
  let es := [ Responds 0 (answer 201 (challenge_json "c1" PENDING 1000)) 10;
              Responds 1 (answer 200 (challenge_json "c1" DENIED 1000)) 20 ] in
  let w := run (boot (signed_in "access" "refresh")) (CallGetMFAConfirmedToken :: es) in
  let w1 := run (boot (signed_in "access" "refresh"))
              [ CallGetMFAConfirmedToken;
                Responds 0 (answer 201 (challenge_json "c1" PENDING 1000)) 10;
                Responds 1 (answer 200 (challenge_json "c1" PENDING 1000)) 20;
                TimerFires 0 ] in
  let w2 := step w1 (Responds 2 NetworkFailure 30) in
  (settled (run w [CallCancel; TimerFires 0]) 0%nat = Some (Rejected ChallengeDeniedError)
   /\ rejectMFAConfirmation (auth w) = None /\ step w CallCancel = w)
  /\ (attempts w2 0%nat = (attempts w1 0%nat ++ [Rejected TypeError])%list
      /\ is_Some (settled w2 0%nat)
      /\ forall es', settled (run w2 (CallCancel :: es')) 0%nat = settled w2 0%nat).
Proof.
  destruct C9_confirmation_settled_once as (H1 & H2 & H3). split; [split|].
  - apply H1. vm_compute. reflexivity.
  - apply (H2 (signed_in "access" "refresh") _ 0%nat).
    + repeat constructor; discriminate.
    + vm_compute. reflexivity.
  - apply (H3 _ 2%nat (challenge_json "c1" PENDING 1000) 0%nat NetworkFailure 30
              TypeError).
    + vm_compute. reflexivity.
    + reflexivity.
Defined.

(** ** Further properties: the shape of the challenge *)

Lemma length_replace pat by_ s :
  String.length (replace pat by_ s) = String.length s.
Proof.
  induction s as [|c s IH]; simpl; [reflexivity|].
  destruct (Ascii.eqb c pat); simpl; [reflexivity|]. rewrite IH. reflexivity.
Qed.

Lemma occurrences_remove_all c s : occurrences c (remove_all c s) = O.
Proof.
  induction s as [|x s IH]; simpl; [reflexivity|].
  destruct (Ascii.eqb x c) eqn:E; simpl; [exact IH|]. rewrite E. exact IH.
Qed.

Lemma stripped_length_step n :
  stripped_length (3 + n) = (4 + stripped_length n)%nat.
Proof.
  unfold stripped_length.
  replace (4 * (3 + n) + 2)%nat with (4 * n + 2 + 4 * 3)%nat by lia.
  rewrite Nat.div_add by discriminate. lia.
Qed.

(** A base64 text without its padding has four characters for three
    bytes, rounded up. *)
Lemma b64_encode_stripped_length l :
  String.length (remove_all "=" (b64_encode l)) = stripped_length (List.length l)
  /\ (forall a, String.length (remove_all "=" (b64_encode (a :: l)))
                = stripped_length (S (List.length l)))
  /\ (forall a b, String.length (remove_all "=" (b64_encode (a :: b :: l)))
                  = stripped_length (S (S (List.length l)))).
Proof.
  induction l as [|c l (IH0 & IH1 & IH2)].
  - repeat apply conj; intros; simpl; rewrite ?b64_char_not_pad; reflexivity.
  - split; [apply IH1|]. split; [intros a; apply IH2|].
    intros a b. simpl b64_encode. simpl remove_all. rewrite !b64_char_not_pad.
    simpl String.length. rewrite IH0.
    change (S (S (List.length (c :: l)))) with (3 + List.length l)%nat.
    rewrite stripped_length_step. reflexivity.
Qed.

Lemma compress_length h block :
  List.length h = 8%nat -> List.length (SHA256.compress h block) = 8%nat.
Proof.
  intros H. unfold SHA256.compress.
  rewrite length_map, length_combine, H. reflexivity.
Qed.

Lemma digest_length msg : List.length (SHA256.digest msg) = 32%nat.
Proof.
  unfold SHA256.digest.
  generalize (SHA256.blocks (List.length (SHA256.be_words (SHA256.pad msg)))
                            (SHA256.be_words (SHA256.pad msg))) as bs.
  intros bs.
  assert (H : List.length (fold_left SHA256.compress bs SHA256.H0) = 8%nat).
  { assert (G : forall h, List.length h = 8%nat ->
                          List.length (fold_left SHA256.compress bs h) = 8%nat).
    { induction bs as [|b bs IH]; intros h Hh; simpl; [exact Hh|].
      apply IH, compress_length, Hh. }
    apply G. reflexivity. }
  revert H. generalize (fold_left SHA256.compress bs SHA256.H0) as h. intros h.
  do 8 (destruct h as [|? h]; [discriminate|]).
  destruct h; [reflexivity|discriminate].
Qed.

(** X1: for every verifier the challenge has 43 characters, as RFC 7636
    has it for S256, and no padding character. *)
Theorem challenge_of_has_43_characters :
  forall verifier,
    String.length (challenge_of verifier) = 43%nat
    /\ occurrences "=" (challenge_of verifier) = O.
Proof.
  intros v. unfold challenge_of. rewrite btoa_digest.
  destruct (b64_encode_padding (SHA256.array v)) as [-> _]. split.
  - rewrite !length_replace.
    destruct (b64_encode_stripped_length (SHA256.array v)) as [-> _].
    unfold SHA256.array. rewrite digest_length. reflexivity.
  - rewrite !occurrences_replace by reflexivity. apply occurrences_remove_all.
Qed.

(** X2: with a verifier configured, [getAuthUri] sets code_challenge
    and code_challenge_method over whatever the caller passed under these
    keys and hands every other key of the caller's query on unchanged;
    without one (absent or empty) it hands the caller's query on as it
    is. *)
Theorem getAuthUri_query_keys :
  forall a opts,
    (forall v, verifier a = Some v -> v <> "" ->
       getAuthUri_query a opts !! "code_challenge" = Some (QStr (challenge_of v))
       /\ getAuthUri_query a opts !! "code_challenge_method" = Some (QStr "S256")
       /\ forall k, k <> "code_challenge" -> k <> "code_challenge_method" ->
                    getAuthUri_query a opts !! k = default ∅ (query opts) !! k)
    /\ (truthy (verifier a) = false ->
        getAuthUri_query a opts = default ∅ (query opts)).
Proof.
  intros a opts. split.
  - intros v Hv Nv. split; [apply getAuthUri_challenge; assumption|].
    split; [apply (getAuthUri_method a opts v); assumption|].
    intros k K1 K2. unfold getAuthUri_query, truthy. rewrite Hv.
    apply String.eqb_neq in Nv. rewrite Nv. cbn [negb].
    rewrite !lookup_insert_ne by congruence. reflexivity.
  - intros H. unfold getAuthUri_query. destruct (verifier a) as [v|]; [|reflexivity].
    rewrite H. reflexivity.
Qed.

Lemma getAuthUri_query_keys_witness :
  let opts := {| query := Some (<["code_challenge" := QStr "mine"]>
                                  (<["prompt" := QStr "login"]> ∅)) |} in
  (getAuthUri_query (pkce_auth "abc") opts !! "code_challenge"
   = Some (QStr (challenge_of "abc"))
   /\ getAuthUri_query (pkce_auth "abc") opts !! "prompt" = Some (QStr "login"))
  /\ getAuthUri_query plain_auth opts = default ∅ (query opts).
Proof.
  intros opts.
  destruct (getAuthUri_query_keys (pkce_auth "abc") opts) as [H _].
  destruct (getAuthUri_query_keys plain_auth opts) as [_ H'].
  destruct (H "abc" eq_refl ltac:(discriminate)) as (C & _ & K).
  split; [split; [exact C|]|apply H'; reflexivity].
  rewrite (K "prompt") by discriminate. reflexivity.
Defined.

(** X3: where the base64 text of the digest has at most one plus and at
    most one slash, the challenge is the base64url text of the digest. *)
Theorem challenge_of_is_base64url_on_single_occurrences :
  forall verifier,
    (occurrences "+" (b64_encode (SHA256.array verifier)) <= 1)%nat ->
    (occurrences "/" (b64_encode (SHA256.array verifier)) <= 1)%nat ->
    challenge_of verifier = base64url (SHA256.array verifier).
Proof.
  intros v Hp Hs.
  assert (R : forall c s, Ascii.eqb "=" c = false ->
                          occurrences c (remove_all "=" s) = occurrences c s).
  { intros c s Hc. induction s as [|x s IH]; simpl; [reflexivity|].
    destruct (Ascii.eqb x "=") eqn:E; simpl.
    - apply Ascii.eqb_eq in E. subst x. rewrite Hc. exact IH.
    - rewrite IH. reflexivity. }
  apply challenge_of_base64url; cbv zeta; rewrite R by reflexivity; assumption.
Qed.

Lemma challenge_of_is_base64url_on_single_occurrences_witness :
  challenge_of "abc" = base64url (SHA256.array "abc").
Proof.
  apply (challenge_of_is_base64url_on_single_occurrences "abc").
  - vm_compute. lia.
  - vm_compute. lia.
Defined.

(** ** Further properties: tokens and requests *)

Lemma request_bearer net a t path m b :
  _token a = Some t ->
  exists req,
    request net a path m b = ([req], request_receive (net req))
    /\ headers req = [ ("Accept", "application/json");
                       ("Content-Type", "application/json");
                       ("Authorization", "Bearer " ++ js_str (accessToken t)) ]
    /\ method req = m /\ url_path req = path /\ url_base req = baseUrl a
    /\ body req = b.
Proof.
  intros H. unfold request, request_send. rewrite H. eexists. repeat split.
Qed.

(** X4: whatever was stored before, also nothing, after [setToken] the
    getter returns the token [setToken] returned, a request does not fail
    for want of a token, and every request handed to [fetch] carries the
    bearer of that token, with the method, path and body asked for, under
    the base url of the instance. *)
Theorem setToken_authorizes_requests :
  forall a acc r ty path m b,
    let t := fst (setToken a acc r ty) in
    let a' := snd (setToken a acc r ty) in
    token a' = Some t
    /\ request_send a' path m b <> Err UserUnauthorizedError
    /\ forall req,
         request_send a' path m b = Ok req ->
         headers req = [ ("Accept", "application/json");
                         ("Content-Type", "application/json");
                         ("Authorization", "Bearer " ++ js_str (accessToken t)) ]
         /\ method req = m /\ url_path req = path /\ url_base req = baseUrl a
         /\ body req = b.
Proof.
  intros a acc r ty path m b t a'.
  split; [reflexivity|]. split; [discriminate|].
  intros req H. injection H as <-. repeat split.
Qed.

Lemma setToken_authorizes_requests_witness :
  let a' := snd (setToken plain_auth (Some "access") (Some "refresh") None) in
  let req := {| url_path := CREATE_DEVICE_PATH; url_base := api; method := POST;
                headers := [ ("Accept", "application/json");
                             ("Content-Type", "application/json");
                             ("Authorization", "Bearer access") ];
                body := Some "{}" |} in
  headers req = [ ("Accept", "application/json");
                  ("Content-Type", "application/json");
                  ("Authorization",
                   "Bearer " ++ js_str (accessToken
                      (fst (setToken plain_auth (Some "access") (Some "refresh")
                              None)))) ]
  /\ method req = POST /\ url_path req = CREATE_DEVICE_PATH
  /\ url_base req = baseUrl plain_auth /\ body req = Some "{}".
Proof.
  intros a' req.
  destruct (setToken_authorizes_requests plain_auth (Some "access")
              (Some "refresh") None CREATE_DEVICE_PATH POST (Some "{}"))
    as (_ & _ & H).
  apply H. reflexivity.
Defined.

(** X5: after [fetchToken] or [fetchTokenFromCredentials] was granted a
    token, the getter returns it and every request handed to [fetch]
    carries its bearer; after the provider refused, the call settles with
    the provider's error and the instance is as it was.  The credentials
    call passes the scopes on whenever given, also an empty list. *)
Theorem token_exchange_then_request :
  forall ep a path m b,
    (forall uri,
       match code_getToken ep uri (fetchToken_options a) with
       | Granted t =>
           fst (fetchToken ep a uri) = Granted t
           /\ token (snd (fetchToken ep a uri)) = Some t
           /\ forall req,
                request_send (snd (fetchToken ep a uri)) path m b = Ok req ->
                In ("Authorization", "Bearer " ++ js_str (accessToken t))
                   (headers req)
       | Refused msg => fetchToken ep a uri = (Refused msg, a)
       end)
    /\ (forall username password scopes,
          match owner_getToken ep username password scopes with
          | Granted t =>
              fst (fetchTokenFromCredentials ep a username password scopes)
              = Granted t
              /\ token (snd (fetchTokenFromCredentials ep a username password
                               scopes)) = Some t
              /\ forall req,
                   request_send (snd (fetchTokenFromCredentials ep a username
                                        password scopes)) path m b = Ok req ->
                   In ("Authorization", "Bearer " ++ js_str (accessToken t))
                      (headers req)
          | Refused msg =>
              fetchTokenFromCredentials ep a username password scopes
              = (Refused msg, a)
          end).
Proof.
  intros ep a path m b.
  assert (G : forall t req,
             request_send (with_token t a) path m b = Ok req ->
             In ("Authorization", "Bearer " ++ js_str (accessToken t))
                (headers req)).
  { intros t req H. injection H as <-. simpl. auto. }
  split.
  - intros uri. unfold fetchToken.
    destruct (code_getToken ep uri (fetchToken_options a)) as [t|msg]; simpl.
    + split; [reflexivity|]. split; [reflexivity|apply G].
    + reflexivity.
  - intros username password scopes. unfold fetchTokenFromCredentials.
    destruct scopes as [l|];
      destruct (owner_getToken ep username password _) as [t|msg]; simpl;
      try (split; [reflexivity|]; split; [reflexivity|apply G]);
      reflexivity.
Qed.

Lemma token_exchange_then_request_witness :
  let t := Engine.create (JStr "t") (JObj ∅) JUndef JUndef in
  let req := {| url_path := CREATE_DEVICE_PATH; url_base := api; method := POST;
                headers := [ ("Accept", "application/json");
                             ("Content-Type", "application/json");
                             ("Authorization", "Bearer t") ];
                body := None |} in
  (fst (fetchToken granting plain_auth "https://app.example/callback?code=c")
   = Granted t
   /\ In ("Authorization", "Bearer " ++ js_str (accessToken t)) (headers req))
  /\ fetchTokenFromCredentials granting plain_auth "user" "secret" (Some [])
     = (Refused "invalid_grant", plain_auth).
Proof.
  intros t req.
  destruct (token_exchange_then_request granting plain_auth CREATE_DEVICE_PATH
              POST None) as [H1 H2].
  split.
  - destruct (H1 "https://app.example/callback?code=c") as (E & _ & H).
    split; [exact E|]. apply H. reflexivity.
  - apply (H2 "user" "secret" (Some [])).
Defined.

(** X6: PKCE pairing.  With a verifier configured, the code_verifier
    [fetchToken] passes to the exchange is the verifier whose challenge
    [getAuthUri] puts into the authorization query; without one no
    code_verifier is passed. *)
Theorem fetchToken_verifier_matches_challenge :
  forall a opts,
    (forall v, verifier a = Some v -> v <> "" ->
       fetchToken_options a = Some v
       /\ getAuthUri_query a opts !! "code_challenge"
          = Some (QStr (challenge_of v)))
    /\ (truthy (verifier a) = false -> fetchToken_options a = None).
Proof.
  intros a opts. split.
  - intros v Hv Nv. split; [|apply getAuthUri_challenge; assumption].
    unfold fetchToken_options, truthy. rewrite Hv.
    apply String.eqb_neq in Nv. rewrite Nv. reflexivity.
  - intros H. unfold fetchToken_options. rewrite H. reflexivity.
Qed.

Lemma fetchToken_verifier_matches_challenge_witness :
  (fetchToken_options (pkce_auth "abc") = Some "abc"
   /\ getAuthUri_query (pkce_auth "abc") {| query := None |} !! "code_challenge"
      = Some (QStr (challenge_of "abc")))
  /\ fetchToken_options plain_auth = None.
Proof.
  destruct (fetchToken_verifier_matches_challenge (pkce_auth "abc")
              {| query := None |}) as [H _].
  destruct (fetchToken_verifier_matches_challenge plain_auth
              {| query := None |}) as [_ H'].
  split; [apply H; [reflexivity|discriminate]|apply H'; reflexivity].
Defined.

(** X7: [verifyDeviceChallenge] changes the instance only when it
    succeeds: whenever it fails, on a missing token, a failed request, an
    error status or an empty 204 answer, the stored token and the rest of
    the instance are as before. *)
Theorem verifyDeviceChallenge_failure_keeps_instance :
  forall net a deviceId challengeId params sent e a',
    verifyDeviceChallenge net a deviceId challengeId params = (sent, Err e, a') ->
    a' = a.
Proof.
  intros net a deviceId challengeId params sent e a'. unfold verifyDeviceChallenge.
  destruct (request net a _ POST (Some params)) as [s [[result|]|e']].
  - destruct (setToken a _ _ None). intros H. inversion H.
  - intros H. inversion H. reflexivity.
  - intros H. inversion H. reflexivity.
Qed.

Lemma verifyDeviceChallenge_failure_keeps_instance_witness :
  snd (verifyDeviceChallenge (respond 204 "No Content" None)
         (signed_in "access" "refresh") "d1" "c1" "{}")
  = signed_in "access" "refresh".
Proof.
  eapply (verifyDeviceChallenge_failure_keeps_instance
            (respond 204 "No Content" None) _ "d1" "c1" "{}" _ TypeError).
  reflexivity.
Defined.

(** X8: when the stored token has no refresh token (none, or an empty
    one), a [verifyDeviceChallenge] that succeeds builds the new token
    from the access token of the response alone. *)
Theorem verifyDeviceChallenge_without_refresh_token :
  forall net a deviceId challengeId params sent result,
    truthy (_token a ≫= refreshToken) = false ->
    request net a (VERIFY_DEVICE_CHALLENGE_PATH deviceId challengeId) POST
            (Some params) = (sent, Ok (Some result)) ->
    exists t a',
      verifyDeviceChallenge net a deviceId challengeId params = (sent, Ok t, a')
      /\ t = createToken (oauth2Client a) (js_arg (Json.token result))
               (JObj ∅) JUndef JUndef
      /\ token a' = Some t.
Proof.
  intros net a deviceId challengeId params sent result H Hq.
  unfold verifyDeviceChallenge. rewrite Hq. unfold setToken. rewrite H.
  eexists _, _. split; [reflexivity|]. split; reflexivity.
Qed.

Lemma verifyDeviceChallenge_without_refresh_token_witness :
  exists t a',
    verifyDeviceChallenge (respond 200 "OK" (Some (json_token "elevated")))
      (snd (setToken plain_auth (Some "access") None None)) "d1" "c1" "{}"
    = ([ {| url_path := "/api/user/devices/d1/challenges/c1/verify";
            url_base := api; method := POST;
            headers := [ ("Accept", "application/json");
                         ("Content-Type", "application/json");
                         ("Authorization", "Bearer access") ];
            body := Some "{}" |} ],
       Ok t, a')
    /\ t = createToken (oauth2Client plain_auth) (JStr "elevated") (JObj ∅)
             JUndef JUndef
    /\ token a' = Some t.
Proof.
  apply (verifyDeviceChallenge_without_refresh_token
           (respond 200 "OK" (Some (json_token "elevated")))
           (snd (setToken plain_auth (Some "access") None None)) "d1" "c1" "{}"
           _ (json_token "elevated")).
  - reflexivity.
  - reflexivity.
Defined.

(** ** Further properties: the loop of one confirmation *)

Lemma run_finished es : forall w, finished w -> Forall no_call es -> run w es = w.
Proof.
  induction es as [|e es IH]; intros w F H; simpl; [reflexivity|].
  inversion H as [|? ? N H']; subst.
  rewrite (finished_step w e F N). apply IH; assumption.
Qed.

Lemma single_loop_shape w : single_loop w -> shape w.
Proof. intros [[I _]|(_ & S & _)]; [left; exact I|exact S]. Qed.

(** With a request in flight there is that request and no timer. *)
Lemma shape_inflight w n k :
  shape w -> inflight w !! n = Some k -> timers w = ∅ /\ inflight w = {[ n := k ]}.
Proof.
  intros [[_ Hf]|[[Ht (m & k' & Hf)]|[Hf _]]] E;
    try (rewrite Hf, lookup_empty in E; discriminate).
  rewrite Hf in E. apply lookup_singleton_Some in E as [-> ->]. auto.
Qed.

(** With a timer set there is that timer and no request. *)
Lemma shape_timer w i poll :
  shape w -> timers w !! i = Some poll -> timers w = {[ i := poll ]} /\ inflight w = ∅.
Proof.
  intros [[Ht _]|[[Ht _]|[Hf (j & poll' & Ht)]]] E;
    try (rewrite Ht, lookup_empty in E; discriminate).
  rewrite Ht in E. apply lookup_singleton_Some in E as [-> ->]. auto.
Qed.

Lemma linked_no_timer w : timers w = ∅ -> linked w.
Proof. intros Ht i poll H. rewrite Ht, lookup_empty in H. discriminate. Qed.

Lemma linked_step w e : shape w -> linked w -> no_call e -> linked (step w e).
Proof.
  intros S L N. destruct e as [| |i|n r now]; unfold step.
  - exfalso. apply N. reflexivity.
  - unfold cancelMFAConfirmation.
    set (wc := clearTimeout (challengePollTimeoutId (auth w)) w).
    assert (Lc : linked wc).
    { unfold wc. destruct (challengePollTimeoutId (auth w)) as [j|]; [|exact L].
      intros i poll H. simpl in H. apply lookup_delete_Some in H as [_ H].
      apply (L i poll H). }
    destruct (rejectMFAConfirmation (auth wc)); exact Lc.
  - destruct (timers w !! i) as [poll|] eqn:E; [|exact L].
    destruct (shape_timer w i poll S E) as [Ht _].
    apply linked_no_timer. unfold pollChallengeStatus.
    destruct (request_send _ _ _ _); simpl; rewrite Ht; apply delete_singleton_eq.
  - destruct (inflight w !! n) as [k|] eqn:E; [|exact L].
    destruct (shape_inflight w n k S E) as [Ht _].
    destruct k as [p|pending p|p].
    + apply linked_no_timer. unfold getMFAConfirmedToken_resume, pollChallengeStatus.
      destruct (request_receive r) as [[c|]|e]; [|exact Ht..].
      destruct (request_send _ _ _ _); exact Ht.
    + unfold pollChallengeStatus_resume.
      destruct (request_receive r) as [[c|]|e];
        [|apply linked_no_timer; exact Ht..].
      destruct (hasExpired c now); [apply linked_no_timer; exact Ht|].
      destruct (wasDenied c); [apply linked_no_timer; exact Ht|].
      destruct (wasVerified c).
      * apply linked_no_timer. destruct (request_send _ _ _ _); exact Ht.
      * intros i poll H. simpl in H. rewrite Ht in H.
        apply lookup_insert_Some in H as [[<- <-]|[_ H]];
          [split; reflexivity|rewrite lookup_empty in H; discriminate].
    + apply linked_no_timer. unfold pollChallengeStatus_redeemed.
      destruct (request_receive r) as [[c|]|e]; exact Ht.
Qed.

Lemma confirming_invariant a es :
  Forall no_call es -> single_loop (confirming a es) /\ linked (confirming a es).
Proof.
  unfold confirming.
  change (run (boot a) (CallGetMFAConfirmedToken :: es))
    with (run (step (boot a) CallGetMFAConfirmedToken) es).
  assert (I : single_loop (step (boot a) CallGetMFAConfirmedToken)
              /\ linked (step (boot a) CallGetMFAConfirmedToken)).
  { split; [apply single_loop_started|]. apply linked_no_timer.
    unfold step, getMFAConfirmedToken. destruct (request_send _ _ _ _); reflexivity. }
  revert I. generalize (step (boot a) CallGetMFAConfirmedToken) as w.
  induction es as [|e es IH]; intros w [S L] F; simpl; [auto|].
  inversion F as [|? ? N F']; subst. apply IH; [|exact F'].
  split; [apply single_loop_step; assumption|].
  apply linked_step; [apply single_loop_shape, S|exact L|exact N].
Qed.

(** X10: while one confirmation runs, whatever the order of cancels,
    timers and responses, there is at most one timer or one request
    outstanding, never both; and a timer that is set is the one whose id
    the instance holds, with the reject of its confirmation. *)
Theorem at_most_one_poll_outstanding :
  forall a es,
    Forall no_call es ->
    let w := confirming a es in
    (size (timers w) + size (inflight w) <= 1)%nat /\ linked w.
Proof.
  intros a es F w. destruct (confirming_invariant a es F) as [S L].
  split; [|exact L].
  destruct (single_loop_shape _ S) as [[Ht Hf]|[[Ht (n & k & Hf)]|[Hf (i & poll & Ht)]]];
    fold w in Ht, Hf; rewrite Ht, Hf;
    rewrite ?map_size_empty, ?map_size_singleton; lia.
Qed.

Lemma at_most_one_poll_outstanding_witness :
  let w := confirming (signed_in "access" "refresh")
             [ Responds 0 (answer 201 (challenge_json "c1" PENDING 1000)) 10;
               Responds 1 (answer 200 (challenge_json "c1" PENDING 1000)) 20;
               CallCancel;
               Responds 1 (answer 200 (challenge_json "c1" VERIFIED 1000)) 30 ] in
  (size (timers w) + size (inflight w) <= 1)%nat /\ linked w.
Proof.
  apply (at_most_one_poll_outstanding (signed_in "access" "refresh")).
  repeat constructor; discriminate.
Defined.

Lemma attempts_settle_same p s w :
  attempts (settle p s w) p = (attempts w p ++ [s])%list.
Proof. rewrite attempts_settle. destruct (decide (p = p)); [reflexivity|congruence]. Qed.

(** The request in flight of a confirmation under way. *)
Lemma confirming_inflight a es n k :
  Forall no_call es -> inflight (confirming a es) !! n = Some k ->
  timers (confirming a es) = ∅ /\ inflight (confirming a es) = {[ n := k ]}
  /\ (forall p, k = AwaitToken p ->
                rejectMFAConfirmation (auth (confirming a es)) = None).
Proof.
  intros F E. destruct (confirming_invariant a es F) as [S _].
  destruct (shape_inflight _ n k (single_loop_shape _ S) E) as [Ht Hf].
  split; [exact Ht|]. split; [exact Hf|]. intros p ->.
  destruct S as [[[_ I] _]|(_ & _ & K)]; [|apply (K n p E)].
  rewrite I, lookup_empty in E. discriminate.
Qed.

(** X11: at any tick of a confirmation, a fetched challenge that is
    expired, or else denied, makes the tick call reject with
    [ChallengeExpiredError], or else [ChallengeDeniedError], send nothing,
    and end the loop for good: no event after it, a cancel included,
    changes anything. *)
Theorem poll_decision_ends_loop :
  forall a es n pending p r now c,
    Forall no_call es ->
    let w := confirming a es in
    inflight w !! n = Some (AwaitChallenge pending p) ->
    request_receive r = Ok (Some c) ->
    hasExpired c now || wasDenied c = true ->
    let w' := step w (Responds n r now) in
    attempts w' p
    = (attempts w p
       ++ [Rejected (if hasExpired c now then ChallengeExpiredError
                     else ChallengeDeniedError)])%list
    /\ sent w' = sent w
    /\ forall es', Forall no_call es' -> run w' es' = w'.
Proof.
  intros a es n pending p r now c F w E Hr Hd w'.
  destruct (confirming_inflight a es n _ F E) as (Ht & Hf & _). fold w in Ht, Hf.
  assert (Ew : w' = settle p (Rejected (if hasExpired c now then ChallengeExpiredError
                                         else ChallengeDeniedError))
                     (with_auth (set_reject None (auth w))
                        (with_inflight (delete n (inflight w)) w))).
  { unfold w', step. rewrite E. unfold pollChallengeStatus_resume. rewrite Hr.
    destruct (hasExpired c now); [reflexivity|]. simpl in Hd. rewrite Hd.
    reflexivity. }
  rewrite Ew. split; [rewrite attempts_settle_same; reflexivity|]. split; [reflexivity|].
  intros es' F'. apply run_finished; [|exact F'].
  split; [split|reflexivity]; simpl; [exact Ht|].
  rewrite Hf. apply delete_singleton_eq.
Qed.

Lemma poll_decision_ends_loop_witness :
  let w := confirming (signed_in "access" "refresh")
             [ Responds 0 (answer 201 (challenge_json "c1" PENDING 1000)) 10;
               Responds 1 (answer 200 (challenge_json "c1" PENDING 1000)) 20;
               TimerFires 0 ] in
  let w' := step w (Responds 2 (answer 200 (challenge_json "c1" DENIED 1000)) 30) in
  attempts w' 0%nat = (attempts w 0%nat ++ [Rejected ChallengeDeniedError])%list
  /\ sent w' = sent w
  /\ forall es', Forall no_call es' -> run w' es' = w'.
Proof.
  apply (poll_decision_ends_loop (signed_in "access" "refresh") _ 2%nat
           (challenge_json "c1" PENDING 1000) 0%nat
           (answer 200 (challenge_json "c1" DENIED 1000)) 30
           (challenge_json "c1" DENIED 1000)).
  - repeat constructor; discriminate.
  - vm_compute. reflexivity.
  - reflexivity.
  - reflexivity.
Defined.

(** X12: there is no retry.  When the request that creates the
    challenge or the request of a tick fails (no connection, a status
    outside 200-299, a body that does not parse), reject is called with
    that error, and no request is sent and no timer set ever after. *)
Theorem failed_request_ends_loop :
  forall a es n k p r now e,
    Forall no_call es ->
    let w := confirming a es in
    inflight w !! n = Some k ->
    (k = AwaitCreate p \/ exists pending, k = AwaitChallenge pending p) ->
    request_receive r = Err e ->
    let w' := step w (Responds n r now) in
    attempts w' p = (attempts w p ++ [Rejected e])%list
    /\ forall es', Forall no_call es' ->
                   sent (run w' es') = sent w /\ idle (run w' es').
Proof.
  intros a es n k p r now e F w E Hk Hr w'.
  destruct (confirming_inflight a es n _ F E) as (Ht & Hf & _). fold w in Ht, Hf.
  assert (Ew : w' = settle p (Rejected e) (with_inflight (delete n (inflight w)) w)).
  { unfold w', step. rewrite E. destruct Hk as [->|[pending ->]].
    - unfold getMFAConfirmedToken_resume. rewrite Hr. reflexivity.
    - unfold pollChallengeStatus_resume. rewrite Hr. reflexivity. }
  rewrite Ew. split; [rewrite attempts_settle_same; reflexivity|]. intros es' F'.
  assert (I : idle (settle p (Rejected e) (with_inflight (delete n (inflight w)) w))).
  { split; simpl; [exact Ht|]. rewrite Hf. apply delete_singleton_eq. }
  destruct (idle_run es' _ I F') as (I' & S' & _). split; [exact S'|exact I'].
Qed.

Lemma failed_request_ends_loop_witness :
  let w := confirming (signed_in "access" "refresh")
             [ Responds 0 (answer 201 (challenge_json "c1" PENDING 1000)) 10 ] in
  let w' := step w (Responds 1 NetworkFailure 20) in
  attempts w' 0%nat = (attempts w 0%nat ++ [Rejected TypeError])%list
  /\ forall es', Forall no_call es' ->
                 sent (run w' es') = sent w /\ idle (run w' es').
Proof.
  apply (failed_request_ends_loop (signed_in "access" "refresh") _ 1%nat
           (AwaitChallenge (challenge_json "c1" PENDING 1000) 0%nat) 0%nat
           NetworkFailure 20 TypeError).
  - repeat constructor; discriminate.
  - vm_compute. reflexivity.
  - right. eexists. reflexivity.
  - reflexivity.
Defined.

(** X13: an error thrown inside a tick outside its try block is caught
    by nobody.  When the poll is answered with an empty 204, or the
    redemption fails or is answered with an empty 204, neither resolve nor
    reject is called, then or ever after, and the loop has ended: a
    confirmation still pending then stays pending for good, a cancel does
    not reject it either. *)
Theorem uncaught_throw_leaves_confirmation_pending :
  forall a es n k p r now,
    Forall no_call es ->
    let w := confirming a es in
    inflight w !! n = Some k ->
    ((exists pending, k = AwaitChallenge pending p) /\ request_receive r = Ok None)
    \/ (k = AwaitToken p
        /\ (request_receive r = Ok None \/ exists e, request_receive r = Err e)) ->
    let w' := step w (Responds n r now) in
    promises w' = promises w
    /\ forall es', Forall no_call es' ->
                   run w' es' = w' /\ settled (run w' es') p = settled w p.
Proof.
  intros a es n k p r now F w E Hk w'.
  destruct (confirming_inflight a es n _ F E) as (Ht & Hf & K). fold w in Ht, Hf, K.
  assert (Ew : promises w' = promises w /\ finished w').
  { unfold w', step. rewrite E.
    assert (D : delete n (inflight w) = ∅) by (rewrite Hf; apply delete_singleton_eq).
    destruct Hk as [[[pending ->] Hr]|[-> Hr]].
    - unfold pollChallengeStatus_resume. rewrite Hr.
      split; [reflexivity|]. split; [split|reflexivity]; simpl; assumption.
    - pose proof (K p eq_refl) as R. unfold pollChallengeStatus_redeemed.
      destruct Hr as [Hr|[e Hr]]; rewrite Hr;
        (split; [reflexivity|]; split; [split|exact R]; simpl; assumption). }
  destruct Ew as [Ep Fw]. split; [exact Ep|]. intros es' F'.
  rewrite (run_finished es' w' Fw F'). split; [reflexivity|].
  unfold settled, attempts. rewrite Ep. reflexivity.
Qed.

Lemma uncaught_throw_leaves_confirmation_pending_witness :
  let w := confirming (signed_in "access" "refresh")
             [ Responds 0 (answer 201 (challenge_json "c1" PENDING 1000)) 10;
               Responds 1 (answer 200 (challenge_json "c1" VERIFIED 1000)) 20 ] in
  let w' := step w (Responds 2 (Responded {| Response.status := 500; Response.statusText := "Internal Server Error"; Response.json := None |}) 30) in
  settled w 0%nat = None
  /\ promises w' = promises w
  /\ forall es', Forall no_call es' ->
                 run w' es' = w' /\ settled (run w' es') 0%nat = settled w 0%nat.
Proof.
  split; [vm_compute; reflexivity|].
  apply (uncaught_throw_leaves_confirmation_pending (signed_in "access" "refresh")
           _ 2%nat (AwaitToken 0%nat) 0%nat).
  - repeat constructor; discriminate.
  - vm_compute. reflexivity.
  - right. split; [reflexivity|]. right. eexists. reflexivity.
Defined.

(** X14: a cancel while the next tick is scheduled ends the
    confirmation: reject is called with [MFAConfirmationCanceledError],
    the timer is cleared, and no request is sent and no timer set ever
    after. *)
Theorem cancel_while_scheduled_ends_loop :
  forall a es i poll,
    Forall no_call es ->
    let w := confirming a es in
    timers w !! i = Some poll ->
    let w' := step w CallCancel in
    attempts w' (operation poll)
    = (attempts w (operation poll) ++ [Rejected MFAConfirmationCanceledError])%list
    /\ forall es', Forall no_call es' ->
                   sent (run w' es') = sent w /\ idle (run w' es').
Proof.
  intros a es i poll F w E w'.
  destruct (confirming_invariant a es F) as [S L]. fold w in S, L.
  destruct (shape_timer w i poll (single_loop_shape w S) E) as [Ht Hf].
  destruct (L i poll E) as [Hi Hp].
  destruct (cancel_between_ticks w i poll (operation poll) Hi Hp Ht Hf)
    as (I & A & N).
  split; [exact A|]. intros es' F'. split; [apply N, F'|].
  apply (idle_run es' _ I F').
Qed.

Lemma cancel_while_scheduled_ends_loop_witness :
  let w := confirming (signed_in "access" "refresh")
             [ Responds 0 (answer 201 (challenge_json "c1" PENDING 1000)) 10;
               Responds 1 (answer 200 (challenge_json "c1" PENDING 1000)) 20 ] in
  let w' := step w CallCancel in
  attempts w' 0%nat = (attempts w 0%nat ++ [Rejected MFAConfirmationCanceledError])%list
  /\ forall es', Forall no_call es' ->
                 sent (run w' es') = sent w /\ idle (run w' es').
Proof.
  apply (cancel_while_scheduled_ends_loop (signed_in "access" "refresh") _ 0%nat
           {| pendingChallenge := challenge_json "c1" PENDING 1000;
              operation := 0%nat |}).
  - repeat constructor; discriminate.
  - vm_compute. reflexivity.
Defined.

Lemma step_pending w n p pending r now c :
  inflight w !! n = Some (AwaitChallenge pending p) ->
  request_receive r = Ok (Some c) ->
  hasExpired c now = false -> wasDenied c = false -> wasVerified c = false ->
  step w (Responds n r now)
  = setTimeout {| pendingChallenge := pending; operation := p |}
      (with_auth (set_reject (Some p) (auth w))
         (with_inflight (delete n (inflight w)) w)).
Proof.
  intros Hk Hr He Hd Hv. unfold step. rewrite Hk.
  unfold pollChallengeStatus_resume. rewrite Hr, He, Hd, Hv. reflexivity.
Qed.

Lemma step_timer w i poll req :
  timers w !! i = Some poll ->
  request_send (auth w)
    (MFA_CHALLENGE_PATH ++ "/" ++ js_str (Json.id (pendingChallenge poll)))
    GET None = Ok req ->
  step w (TimerFires i)
  = fetch req (AwaitChallenge (pendingChallenge poll) (operation poll))
      (with_timers (delete i (timers w)) w).
Proof.
  intros Hk Hs. unfold step. rewrite Hk. unfold pollChallengeStatus.
  simpl auth. rewrite Hs. reflexivity.
Qed.

Lemma step_verified w n p pending r now c req :
  inflight w !! n = Some (AwaitChallenge pending p) ->
  request_receive r = Ok (Some c) ->
  hasExpired c now = false -> wasVerified c = true ->
  request_send (auth w)
    (MFA_CHALLENGE_PATH ++ "/" ++ js_str (Json.id c) ++ "/token") POST None
  = Ok req ->
  step w (Responds n r now)
  = fetch req (AwaitToken p)
      (with_auth (set_reject None (auth w))
         (with_inflight (delete n (inflight w)) w)).
Proof.
  intros Hk Hr He Hv Hs. unfold step. rewrite Hk.
  unfold pollChallengeStatus_resume. rewrite Hr, He, Hv.
  assert (Hd : wasDenied c = false).
  { unfold wasVerified in Hv. unfold wasDenied.
    destruct (Json.status c) as [[| |]|]; congruence. }
  rewrite Hd.
  change (request_send (auth (with_auth (set_reject None (auth
            (with_inflight (delete n (inflight w)) w)))
            (with_inflight (delete n (inflight w)) w))))
    with (request_send (auth w)).
  rewrite Hs. reflexivity.
Qed.

Lemma step_redeemed w n p r now result :
  inflight w !! n = Some (AwaitToken p) ->
  request_receive r = Ok (Some result) ->
  step w (Responds n r now)
  = settle p (Resolved (fst (setToken (auth w) (Json.token result) None None)))
      (with_auth (snd (setToken (auth w) (Json.token result) None None))
         (with_inflight (delete n (inflight w)) w)).
Proof.
  intros Hk Hr. unfold step. rewrite Hk. unfold pollChallengeStatus_redeemed.
  rewrite Hr. reflexivity.
Qed.

(** X15: a challenge that is pending at the first poll and verified at
    the second.  The confirmation resolves with the token built from the
    redeemed access token, which is then the stored token; exactly four
    requests are sent (the creation, two polls of the created challenge,
    one redemption of the fetched one); and nothing changes afterwards. *)
Theorem pending_then_verified_resolves :
  forall a t0 r0 now0 pending r1 now1 c1 r2 now2 c2 r3 now3 result,
    _token a = Some t0 ->
    request_receive r0 = Ok (Some pending) ->
    request_receive r1 = Ok (Some c1) ->
    hasExpired c1 now1 = false -> wasDenied c1 = false -> wasVerified c1 = false ->
    request_receive r2 = Ok (Some c2) ->
    hasExpired c2 now2 = false -> wasVerified c2 = true ->
    request_receive r3 = Ok (Some result) ->
    let w := confirming a [ Responds 0 r0 now0; Responds 1 r1 now1; TimerFires 0;
                            Responds 2 r2 now2; Responds 3 r3 now3 ] in
    let t := createToken (oauth2Client a) (js_arg (Json.token result))
               (JObj ∅) JUndef JUndef in
    attempts w 0%nat = [Resolved t]
    /\ token (auth w) = Some t
    /\ log w = [ (POST, MFA_CHALLENGE_PATH);
                 (GET, MFA_CHALLENGE_PATH ++ "/" ++ js_str (Json.id pending));
                 (GET, MFA_CHALLENGE_PATH ++ "/" ++ js_str (Json.id pending));
                 (POST, MFA_CHALLENGE_PATH ++ "/" ++ js_str (Json.id c2) ++ "/token") ]
    /\ forall es, Forall no_call es -> run w es = w.
Proof.
  intros a t0 r0 now0 pending r1 now1 c1 r2 now2 c2 r3 now3 result
         Ht Hr0 Hr1 He1 Hd1 Hv1 Hr2 He2 Hv2 Hr3 w t.
  destruct (request_send_ok a t0 MFA_CHALLENGE_PATH POST None Ht)
    as (q0 & E0 & M0 & P0).
  destruct (request_send_ok a t0
              (MFA_CHALLENGE_PATH ++ "/" ++ js_str (Json.id pending)) GET None Ht)
    as (q1 & E1 & M1 & P1).
  destruct (request_send_ok a t0
              (MFA_CHALLENGE_PATH ++ "/" ++ js_str (Json.id c2) ++ "/token")
              POST None Ht)
    as (q3 & E3 & M3 & P3).
  assert (S : single_loop w).
  { apply confirming_invariant. repeat constructor; discriminate. }
  assert (Ew : exists w4,
             w = settle 0%nat (Resolved t) w4
             /\ promises w4 = ∅ /\ _token (auth w4) = Some t
             /\ sent w4 = [q0; q1; q1; q3]).
  { unfold w, confirming.
    change (run (boot a) [CallGetMFAConfirmedToken; Responds 0 r0 now0;
                          Responds 1 r1 now1; TimerFires 0; Responds 2 r2 now2;
                          Responds 3 r3 now3])
      with (step (step (step (step (step (step (boot a) CallGetMFAConfirmedToken)
              (Responds 0 r0 now0)) (Responds 1 r1 now1)) (TimerFires 0))
              (Responds 2 r2 now2)) (Responds 3 r3 now3)).
    assert (S1 : step (boot a) CallGetMFAConfirmedToken
                 = fetch q0 (AwaitCreate 0)
                     {| auth := a; promises := ∅; timers := ∅; inflight := ∅;
                        sent := []; next_timeout := 0%nat; next_promise := 1%nat |}).
    { unfold step, getMFAConfirmedToken. simpl. rewrite E0. reflexivity. }
    rewrite S1. clear S1.
    rewrite (step_created _ 0 0 r0 now0 pending q1);
      [|apply lookup_insert_eq|exact Hr0|exact E1].
    rewrite (step_pending _ 1 0 pending r1 now1 c1);
      [|apply lookup_insert_eq|assumption..].
    rewrite (step_timer _ 0 {| pendingChallenge := pending; operation := 0%nat |} q1);
      [|apply lookup_insert_eq|exact E1].
    rewrite (step_verified _ 2 0 pending r2 now2 c2 q3);
      [|apply lookup_insert_eq|assumption..|exact E3].
    rewrite (step_redeemed _ 3 0 r3 now3 result);
      [|apply lookup_insert_eq|exact Hr3].
    eexists. split; [reflexivity|]. split; [reflexivity|]. split; reflexivity. }
  destruct Ew as (w4 & Ew & Ep & Et & Es).
  assert (A : attempts w 0%nat = [Resolved t]).
  { rewrite Ew, attempts_settle_same. unfold attempts. rewrite Ep, lookup_empty.
    reflexivity. }
  split; [exact A|]. split; [rewrite Ew; exact Et|]. split.
  - unfold log. rewrite Ew. simpl sent. rewrite Es. simpl.
    rewrite M0, P0, M1, P1, M3, P3. reflexivity.
  - intros es F. apply run_finished; [|exact F].
    destruct S as [Fi|(U & _)]; [exact Fi|].
    specialize (U 0%nat). rewrite A in U. discriminate U.
Qed.

Lemma pending_then_verified_resolves_witness :
  let w := confirming (signed_in "access" "refresh")
             [ Responds 0 (answer 201 (challenge_json "c1" PENDING 1000)) 10;
               Responds 1 (answer 200 (challenge_json "c1" PENDING 1000)) 20;
               TimerFires 0;
               Responds 2 (answer 200 (challenge_json "c1" VERIFIED 1000)) 30;
               Responds 3 (answer 200 (json_token "confirmed")) 40 ] in
  let t := Engine.create (JStr "confirmed") (JObj ∅) JUndef JUndef in
  attempts w 0%nat = [Resolved t]
  /\ token (auth w) = Some t
  /\ log w = [ (POST, "/api/user/mfa/challenges");
               (GET, "/api/user/mfa/challenges/c1");
               (GET, "/api/user/mfa/challenges/c1");
               (POST, "/api/user/mfa/challenges/c1/token") ]
  /\ forall es, Forall no_call es -> run w es = w.
Proof.
  apply (pending_then_verified_resolves (signed_in "access" "refresh")
           (fst (setToken plain_auth (Some "access") (Some "refresh") None))
           (answer 201 (challenge_json "c1" PENDING 1000)) 10
           (challenge_json "c1" PENDING 1000)
           (answer 200 (challenge_json "c1" PENDING 1000)) 20
           (challenge_json "c1" PENDING 1000)
           (answer 200 (challenge_json "c1" VERIFIED 1000)) 30
           (challenge_json "c1" VERIFIED 1000)
           (answer 200 (json_token "confirmed")) 40 (json_token "confirmed"));
    reflexivity.
Defined.

(** ** Further properties: what the events never touch *)

(** The stored token after a step is the one before, or the one a
    redemption built. *)
Lemma step_token w e :
  _token (auth (step w e)) = _token (auth w)
  \/ exists n r now p result,
       e = Responds n r now
       /\ inflight w !! n = Some (AwaitToken p)
       /\ request_receive r = Ok (Some result)
       /\ _token (auth (step w e))
          = Some (createToken (oauth2Client (auth w)) (js_arg (Json.token result))
                    (JObj ∅) JUndef JUndef).
Proof.
  destruct e as [| |i|n r now]; unfold step.
  - left. unfold getMFAConfirmedToken. destruct (request_send _ _ _ _); reflexivity.
  - left. unfold cancelMFAConfirmation.
    destruct (challengePollTimeoutId (auth w)); simpl;
      destruct (rejectMFAConfirmation (auth w)); reflexivity.
  - left. destruct (timers w !! i); [|reflexivity]. unfold pollChallengeStatus.
    destruct (request_send _ _ _ _); reflexivity.
  - destruct (inflight w !! n) as [[p|pending p|p]|] eqn:E; [| | |left; reflexivity].
    + left. unfold getMFAConfirmedToken_resume, pollChallengeStatus.
      destruct (request_receive r) as [[c|]|e]; [|reflexivity..].
      destruct (request_send _ _ _ _); reflexivity.
    + left. unfold pollChallengeStatus_resume.
      destruct (request_receive r) as [[c|]|e]; [|reflexivity..].
      destruct (hasExpired c now); [reflexivity|].
      destruct (wasDenied c); [reflexivity|].
      destruct (wasVerified c); [|reflexivity].
      destruct (request_send _ _ _ _); reflexivity.
    + unfold pollChallengeStatus_redeemed.
      destruct (request_receive r) as [[result|]|e] eqn:Hr; [|left; reflexivity..].
      right. exists n, r, now, p, result.
      split; [reflexivity|]. split; [exact E|]. split; [exact Hr|].
      reflexivity.
Qed.

(** X16: the configuration is immutable.  No call of the loop, timer or
    response changes the base url, the verifier, the state, the OAuth2
    engine or the poll interval of the instance; and the stored token is
    changed by one event only, the answer to a redemption. *)
Theorem events_keep_configuration :
  forall w,
    (forall es,
       baseUrl (auth (run w es)) = baseUrl (auth w)
       /\ verifier (auth (run w es)) = verifier (auth w)
       /\ state (auth (run w es)) = state (auth w)
       /\ oauth2Client (auth (run w es)) = oauth2Client (auth w)
       /\ challengePollInterval (auth (run w es)) = challengePollInterval (auth w))
    /\ (forall e,
          _token (auth (step w e)) = _token (auth w)
          \/ exists n r now p result,
               e = Responds n r now
               /\ inflight w !! n = Some (AwaitToken p)
               /\ request_receive r = Ok (Some result)
               /\ _token (auth (step w e))
                  = Some (createToken (oauth2Client (auth w))
                            (js_arg (Json.token result)) (JObj ∅) JUndef JUndef)).
Proof.
  intros w. split; [|apply step_token].
  assert (St : forall w e,
             baseUrl (auth (step w e)) = baseUrl (auth w)
             /\ verifier (auth (step w e)) = verifier (auth w)
             /\ state (auth (step w e)) = state (auth w)
             /\ oauth2Client (auth (step w e)) = oauth2Client (auth w)
             /\ challengePollInterval (auth (step w e))
                = challengePollInterval (auth w)).
  { clear w. intros w e. destruct e as [| |i|n r now]; unfold step.
    - unfold getMFAConfirmedToken. destruct (request_send _ _ _ _); repeat split.
    - unfold cancelMFAConfirmation.
      destruct (challengePollTimeoutId (auth w)); simpl;
        destruct (rejectMFAConfirmation (auth w)); repeat split.
    - destruct (timers w !! i); [|repeat split]. unfold pollChallengeStatus.
      destruct (request_send _ _ _ _); repeat split.
    - destruct (inflight w !! n) as [[p|pending p|p]|]; [| | |repeat split].
      + unfold getMFAConfirmedToken_resume, pollChallengeStatus.
        destruct (request_receive r) as [[c|]|e]; [|repeat split..].
        destruct (request_send _ _ _ _); repeat split.
      + unfold pollChallengeStatus_resume.
        destruct (request_receive r) as [[c|]|e]; [|repeat split..].
        destruct (hasExpired c now); [repeat split|].
        destruct (wasDenied c); [repeat split|].
        destruct (wasVerified c); [|repeat split].
        destruct (request_send _ _ _ _); repeat split.
      + unfold pollChallengeStatus_redeemed.
        destruct (request_receive r) as [[result|]|e]; repeat split. }
  intros es. revert w. induction es as [|e es IH]; intros w; simpl; [repeat split|].
  destruct (IH (step w e)) as (B & V & S & O & C).
  destruct (St w e) as (B' & V' & S' & O' & C').
  rewrite B, V, S, O, C. auto.
Qed.

(** X17: a freshly constructed instance is unauthenticated.  Every
    request and [verifyDeviceChallenge] fail with [UserUnauthorizedError]
    and send nothing; [getMFAConfirmedToken] is rejected with it at once
    and nothing is sent then or later; a cancel changes nothing. *)
Theorem fresh_instance_is_unauthenticated :
  forall new_client base opts a,
    constructor new_client base opts = Ok a ->
    token a = None
    /\ (forall net path m b, request net a path m b = ([], Err UserUnauthorizedError))
    /\ (forall net deviceId challengeId params,
          verifyDeviceChallenge net a deviceId challengeId params
          = ([], Err UserUnauthorizedError, a))
    /\ (forall es, Forall no_call es ->
          settled (confirming a es) 0%nat = Some (Rejected UserUnauthorizedError)
          /\ sent (confirming a es) = [])
    /\ step (boot a) CallCancel = boot a.
Proof.
  intros new_client base opts a H. unfold constructor in H.
  destruct (truthy _ && truthy _); [discriminate|].
  injection H as <-. split; [reflexivity|]. split; [reflexivity|].
  split; [reflexivity|]. split; [|reflexivity].
  intros es F. unfold confirming.
  match goal with |- context [run (boot ?a0) _] => set (a := a0) end.
  change (run (boot a) (CallGetMFAConfirmedToken :: es))
    with (run (step (boot a) CallGetMFAConfirmedToken) es).
  set (w := step (boot a) CallGetMFAConfirmedToken).
  assert (Hs : settled w 0%nat = Some (Rejected UserUnauthorizedError))
    by reflexivity.
  assert (I : idle w) by (split; reflexivity).
  split; [apply (settled_extends w); [apply extends_run|exact Hs]|].
  destruct (idle_run es w I F) as (_ & S & _). rewrite S. reflexivity.
Qed.

Lemma fresh_instance_is_unauthenticated_witness :
  exists a,
    constructor Engine.client api (opts_with (Some "verifier") None) = Ok a
    /\ token a = None
    /\ request (respond 200 "OK" None) a CREATE_DEVICE_PATH POST (Some "{}")
       = ([], Err UserUnauthorizedError)
    /\ settled (confirming a [TimerFires 0; CallCancel]) 0%nat
       = Some (Rejected UserUnauthorizedError)
    /\ step (boot a) CallCancel = boot a.
Proof.
  eexists. split; [reflexivity|].
  destruct (fresh_instance_is_unauthenticated Engine.client api
              (opts_with (Some "verifier") None) _ eq_refl)
    as (T & R & _ & C & N).
  split; [exact T|]. split; [apply R|]. split; [|exact N].
  apply C. repeat constructor; discriminate.
Defined.

Lemma request_send_fields a path m b req :
  request_send a path m b = Ok req -> method req = m /\ url_path req = path.
Proof.
  unfold request_send. destruct (_token a); [|discriminate].
  intros [= <-]. split; reflexivity.
Qed.

Lemma sent_unchanged (l : list HttpRequest) req : l <> (l ++ [req])%list.
Proof.
  intros H. apply (f_equal (@List.length _)) in H.
  rewrite length_app in H. simpl in H. lia.
Qed.

(** X18: a redemption is sent by nothing but a tick that fetched a
    challenge that is verified and neither expired nor denied.  Every
    event sends at most one request, and if that request is a POST to
    another path than the one that creates challenges, the event is the
    answer to a poll with such a challenge, and the path is the token path
    of the fetched challenge. *)
Theorem redemption_only_after_verified :
  forall w e,
    (sent (step w e) = sent w \/ exists req, sent (step w e) = (sent w ++ [req])%list)
    /\ forall req,
         sent (step w e) = (sent w ++ [req])%list ->
         method req = POST -> url_path req <> MFA_CHALLENGE_PATH ->
         exists n r now pending p c,
           e = Responds n r now
           /\ inflight w !! n = Some (AwaitChallenge pending p)
           /\ request_receive r = Ok (Some c)
           /\ hasExpired c now = false /\ wasDenied c = false
           /\ wasVerified c = true
           /\ url_path req
              = MFA_CHALLENGE_PATH ++ "/" ++ js_str (Json.id c) ++ "/token".
Proof.
  intros w e.
  assert (G : forall a0 path m req req',
             request_send a0 path m None = Ok req' ->
             (sent w ++ [req'])%list = (sent w ++ [req])%list ->
             method req = m /\ url_path req = path).
  { intros a0 path m req req' Hs H. apply app_inv_head in H. injection H as ->.
    apply (request_send_fields _ _ _ _ _ Hs). }
  destruct e as [| |i|n r now]; unfold step.
  - unfold getMFAConfirmedToken.
    destruct (request_send _ _ _ _) as [req'|e'] eqn:Hs.
    + split; [right; eexists; reflexivity|]. intros req H Hm Hp. exfalso.
      destruct (G _ _ _ _ _ Hs H) as [_ P]. apply Hp, P.
    + split; [left; reflexivity|]. intros req H. destruct (sent_unchanged _ _ H).
  - split.
    + left. unfold cancelMFAConfirmation.
      destruct (challengePollTimeoutId (auth w)); simpl;
        destruct (rejectMFAConfirmation (auth w)); reflexivity.
    + intros req H. exfalso. revert H. unfold cancelMFAConfirmation.
      destruct (challengePollTimeoutId (auth w)); simpl;
        destruct (rejectMFAConfirmation (auth w)); apply sent_unchanged.
  - destruct (timers w !! i) as [poll|];
      [|split; [left; reflexivity|intros req H; destruct (sent_unchanged _ _ H)]].
    unfold pollChallengeStatus.
    destruct (request_send _ _ _ _) as [req'|e'] eqn:Hs.
    + split; [right; eexists; reflexivity|]. intros req H Hm Hp. exfalso.
      destruct (G _ _ _ _ _ Hs H) as [M _]. congruence.
    + split; [left; reflexivity|]. intros req H. destruct (sent_unchanged _ _ H).
  - destruct (inflight w !! n) as [[p|pending p|p]|] eqn:E;
      [| | |split; [left; reflexivity|intros req H; destruct (sent_unchanged _ _ H)]].
    + unfold getMFAConfirmedToken_resume, pollChallengeStatus.
      destruct (request_receive r) as [[c|]|e'];
        try (split; [left; reflexivity|intros req H; destruct (sent_unchanged _ _ H)]).
      destruct (request_send _ _ _ _) as [req'|e'] eqn:Hs.
      * split; [right; eexists; reflexivity|]. intros req H Hm Hp. exfalso.
        destruct (G _ _ _ _ _ Hs H) as [M _]. congruence.
      * split; [left; reflexivity|]. intros req H. destruct (sent_unchanged _ _ H).
    + unfold pollChallengeStatus_resume.
      destruct (request_receive r) as [[c|]|e'] eqn:Hr;
        try (split; [left; reflexivity|intros req H; destruct (sent_unchanged _ _ H)]).
      destruct (hasExpired c now) eqn:He;
        [split; [left; reflexivity|intros req H; destruct (sent_unchanged _ _ H)]|].
      destruct (wasDenied c) eqn:Hd;
        [split; [left; reflexivity|intros req H; destruct (sent_unchanged _ _ H)]|].
      destruct (wasVerified c) eqn:Hv;
        [|split; [left; reflexivity|intros req H; destruct (sent_unchanged _ _ H)]].
      destruct (request_send _ _ _ _) as [req'|e'] eqn:Hs.
      * split; [right; eexists; reflexivity|]. intros req H Hm Hp.
        destruct (G _ _ _ _ _ Hs H) as [_ P].
        exists n, r, now, pending, p, c. repeat (split; [assumption||reflexivity|]).
        exact P.
      * split; [left; reflexivity|]. intros req H. destruct (sent_unchanged _ _ H).
    + unfold pollChallengeStatus_redeemed.
      destruct (request_receive r) as [[c|]|e'];
        (split; [left; reflexivity|intros req H; destruct (sent_unchanged _ _ H)]).
Qed.

Lemma redemption_only_after_verified_witness :
  let w := confirming (signed_in "access" "refresh")
             [ Responds 0 (answer 201 (challenge_json "c1" PENDING 1000)) 10 ] in
  let e := Responds 1 (answer 200 (challenge_json "c2" VERIFIED 1000)) 20 in
  exists n r now pending p c,
    e = Responds n r now
    /\ inflight w !! n = Some (AwaitChallenge pending p)
    /\ request_receive r = Ok (Some c)
    /\ hasExpired c now = false /\ wasDenied c = false
    /\ wasVerified c = true
    /\ "/api/user/mfa/challenges/c2/token"
       = MFA_CHALLENGE_PATH ++ "/" ++ js_str (Json.id c) ++ "/token".
Proof.
  intros w e.
  destruct (redemption_only_after_verified w e) as [_ H].
  apply (H {| url_path := "/api/user/mfa/challenges/c2/token"; url_base := api;
              method := POST;
              headers := [ ("Accept", "application/json");
                           ("Content-Type", "application/json");
                           ("Authorization", "Bearer access") ];
              body := None |}).
  - vm_compute. reflexivity.
  - reflexivity.
  - discriminate.
Defined.

(** A token once stored is never taken away. *)
Lemma run_keeps_token es :
  forall w, is_Some (_token (auth w)) -> is_Some (_token (auth (run w es))).
Proof.
  induction es as [|e es IH]; intros w H; simpl; [exact H|]. apply IH.
  destruct (step_token w e) as [E|(n & r & now & p & result & _ & _ & _ & E)];
    rewrite E; eauto.
Qed.

(** A confirmation with a request in flight has a token. *)
Lemma confirming_inflight_token a es n k :
  Forall no_call es -> inflight (confirming a es) !! n = Some k ->
  is_Some (_token (auth (confirming a es))).
Proof.
  intros F E. unfold confirming in *.
  change (run (boot a) (CallGetMFAConfirmedToken :: es))
    with (run (step (boot a) CallGetMFAConfirmedToken) es) in *.
  destruct (_token a) as [t|] eqn:Ht.
  - apply run_keeps_token. unfold step, getMFAConfirmedToken, request_send. simpl.
    rewrite Ht. simpl. rewrite Ht. eauto.
  - exfalso.
    assert (I : idle (step (boot a) CallGetMFAConfirmedToken)).
    { unfold step, getMFAConfirmedToken, request_send. simpl. rewrite Ht.
      split; reflexivity. }
    destruct (idle_run es _ I F) as ([_ Hf] & _). rewrite Hf, lookup_empty in E.
    discriminate.
Qed.

(** X19: a tick that fetches a challenge that is not expired and still
    pending (or without a status) calls neither resolve nor reject and
    sends nothing; it sets exactly one timer, and when that timer fires the
    next poll asks again for the challenge that was created, whatever id
    the fetched one carries. *)
Theorem pending_tick_schedules_next_poll :
  forall a es n pending p r now c,
    Forall no_call es ->
    let w := confirming a es in
    inflight w !! n = Some (AwaitChallenge pending p) ->
    request_receive r = Ok (Some c) ->
    hasExpired c now = false ->
    Json.status c = None \/ Json.status c = Some PENDING ->
    let w' := step w (Responds n r now) in
    let i := next_timeout w in
    sent w' = sent w /\ promises w' = promises w /\ inflight w' = ∅
    /\ timers w' = {[ i := {| pendingChallenge := pending; operation := p |} ]}
    /\ log (step w' (TimerFires i))
       = (log w
          ++ [(GET, (MFA_CHALLENGE_PATH ++ "/" ++ js_str (Json.id pending))%string)])%list.
Proof.
  intros a es n pending p r now c F w E Hr He Hst w' i.
  destruct (confirming_inflight a es n _ F E) as (Ht & Hf & _). fold w in Ht, Hf.
  destruct (confirming_inflight_token a es n _ F E) as [t0 Ht0]. fold w in Ht0.
  assert (Hd : wasDenied c = false)
    by (unfold wasDenied; destruct Hst as [->| ->]; reflexivity).
  assert (Hv : wasVerified c = false)
    by (unfold wasVerified; destruct Hst as [->| ->]; reflexivity).
  unfold w'. rewrite (step_pending w n p pending r now c E Hr He Hd Hv).
  split; [reflexivity|]. split; [reflexivity|].
  split; [simpl; rewrite Hf; apply delete_singleton_eq|].
  split; [simpl; rewrite Ht; apply insert_empty|].
  destruct (request_send_ok (auth w) t0
              (MFA_CHALLENGE_PATH ++ "/" ++ js_str (Json.id pending)) GET None Ht0)
    as (q & Eq & M & P).
  rewrite (step_timer _ i {| pendingChallenge := pending; operation := p |} q);
    [|apply lookup_insert_eq|exact Eq].
  unfold log. simpl sent. rewrite map_app. simpl. rewrite M, P. reflexivity.
Qed.

Lemma pending_tick_schedules_next_poll_witness :
  let w := confirming (signed_in "access" "refresh")
             [ Responds 0 (answer 201 (challenge_json "c1" PENDING 1000)) 10 ] in
  let w' := step w (Responds 1 (answer 200 (challenge_json "other" PENDING 1000)) 20) in
  sent w' = sent w /\ promises w' = promises w /\ inflight w' = ∅
  /\ timers w' = {[ next_timeout w :=
                      {| pendingChallenge := challenge_json "c1" PENDING 1000;
                         operation := 0%nat |} ]}
  /\ log (step w' (TimerFires (next_timeout w)))
     = (log w ++ [(GET, "/api/user/mfa/challenges/c1")])%list.
Proof.
  apply (pending_tick_schedules_next_poll (signed_in "access" "refresh") _ 1%nat
           (challenge_json "c1" PENDING 1000) 0%nat
           (answer 200 (challenge_json "other" PENDING 1000)) 20
           (challenge_json "other" PENDING 1000)).
  - repeat constructor; discriminate.
  - vm_compute. reflexivity.
  - reflexivity.
  - reflexivity.
  - right. reflexivity.
Defined.

(** ** Further properties: the paths of the device calls *)

Lemma append_assoc (s1 s2 s3 : string) : (s1 ++ s2) ++ s3 = s1 ++ (s2 ++ s3).
Proof.
  induction s1 as [|c s1 IH]; [reflexivity|].
  change (String c ((s1 ++ s2) ++ s3) = String c (s1 ++ (s2 ++ s3))).
  f_equal. exact IH.
Qed.

(** X20: the ids are put into the paths as they are, nothing is
    escaped.  A device id that goes on with [/challenges/] and a
    challenge id makes [verifyDevice] send its request, body included, to
    the path [verifyDeviceChallenge] uses for that device and challenge. *)
Theorem device_ids_are_not_escaped :
  forall net a deviceId challengeId params,
    VERIFY_DEVICE_PATH (deviceId ++ "/challenges/" ++ challengeId)
    = VERIFY_DEVICE_CHALLENGE_PATH deviceId challengeId
    /\ fst (verifyDevice net a (deviceId ++ "/challenges/" ++ challengeId) params)
       = fst (fst (verifyDeviceChallenge net a deviceId challengeId params)).
Proof.
  intros net a deviceId challengeId params.
  assert (E : VERIFY_DEVICE_PATH (deviceId ++ "/challenges/" ++ challengeId)
              = VERIFY_DEVICE_CHALLENGE_PATH deviceId challengeId).
  { unfold VERIFY_DEVICE_PATH, VERIFY_DEVICE_CHALLENGE_PATH.
    rewrite !append_assoc. reflexivity. }
  split; [exact E|]. unfold verifyDevice, verifyDeviceChallenge. rewrite E.
  destruct (request net a _ POST (Some params)) as [s [[result|]|e]];
    [|reflexivity..].
  destruct (setToken a _ _ None). reflexivity.
Qed.
